(** * joynr (C++): proxy construction, local discovery, multicast directory,
      subscription QoS classification

    A shallow embedding of
      - [cpp/common/SubscriptionUtil.cpp],
      - [cpp/libjoynr/capabilities/LocalDiscoveryAggregator.cpp],
      - [cpp/libjoynr/include/joynr/ProxyBuilder.h],
      - [cpp/libjoynr/include/joynr/MulticastReceiverDirectory.h]
    together with the properties the specification states about them. *)

From Stdlib Require Import ZArith String List Bool.
From stdpp Require Import base gmap strings list.


(** ** Shared vocabulary *)

(** What a C++ call can do: return a value, fail an [assert], or leave by an
    exception carrying a message. *)
Inductive Outcome (A : Type) : Type :=
| Returns (a : A)
| AssertFails
| Throws (what : string).
Arguments Returns {A} a.
Arguments AssertFails {A}.
Arguments Throws {A} what.

Definition raises {A} (o : Outcome A) : Prop :=
  match o with Returns _ => False | _ => True end.

(** [p == nullptr] for a pointer that is either null or points to [A]. *)
Definition is_nullptr {A} (p : option A) : bool :=
  match p with None => true | Some _ => false end.

(** [mentions needle hay]: [needle] occurs somewhere inside [hay]. *)
Fixpoint mentions (needle hay : string) : bool :=
  String.prefix needle hay ||
  match hay with
  | EmptyString => false
  | String _ rest => mentions needle rest
  end.

(** ** SubscriptionUtil.cpp *)
Module SubscriptionUtil.

(** The three QoS classes; all intervals are [int64_t] and are only copied,
    never computed with, so they are integers here. The keep-alive class
    derives from the on-change class. *)
Record OnChangeSubscriptionQos := mkOnChange {
  oc_minInterval : Z
}.

Record OnChangeWithKeepAliveSubscriptionQos := mkKeepAlive {
  ka_minInterval : Z;
  ka_maxInterval : Z;
  ka_alertAfterInterval : Z
}.

Record PeriodicSubscriptionQos := mkPeriodic {
  p_period : Z;
  p_alertAfterInterval : Z
}.

(** A [Variant] is a type-erased holder: it carries a value of one of the
    three QoS classes, or of any other type (named by its type name). *)
Inductive Variant :=
| VOnChangeWithKeepAlive (q : OnChangeWithKeepAliveSubscriptionQos)
| VOnChange (q : OnChangeSubscriptionQos)
| VPeriodic (q : PeriodicSubscriptionQos)
| VOther (typeName : string).

(** [qos.is<T>()] followed by [qos.get<T>()], for each of the three [T].
    [is<T>] compares the exact held type. *)
Definition as_OnChangeWithKeepAlive (qos : Variant)
  : option OnChangeWithKeepAliveSubscriptionQos :=
  match qos with VOnChangeWithKeepAlive q => Some q | _ => None end.

Definition as_OnChange (qos : Variant) : option OnChangeSubscriptionQos :=
  match qos with VOnChange q => Some q | _ => None end.

Definition as_Periodic (qos : Variant) : option PeriodicSubscriptionQos :=
  match qos with VPeriodic q => Some q | _ => None end.

Definition is_some {A} (o : option A) : bool :=
  match o with Some _ => true | None => false end.

(** [bool isOnChangeSubscription(const Variant& qos)] *)
Definition isOnChangeSubscription (qos : Variant) : Outcome bool :=
  Returns (is_some (as_OnChangeWithKeepAlive qos) || is_some (as_OnChange qos)).

(** [int64_t getAlertInterval(const Variant& qos)] *)
Definition getAlertInterval (qos : Variant) : Outcome Z :=
  match as_OnChangeWithKeepAlive qos with
  | Some subscriptionQos => Returns (ka_alertAfterInterval subscriptionQos)
  | None =>
    match as_Periodic qos with
    | Some subscriptionQos => Returns (p_alertAfterInterval subscriptionQos)
    | None => Returns (-1)%Z
    end
  end.

(** [int64_t getMinInterval(const Variant& qos)] *)
Definition getMinInterval (qos : Variant) : Outcome Z :=
  match as_OnChangeWithKeepAlive qos with
  | Some subscriptionQos => Returns (ka_minInterval subscriptionQos)
  | None =>
    match as_OnChange qos with
    | Some subscriptionQos => Returns (oc_minInterval subscriptionQos)
    | None => Returns (-1)%Z
    end
  end.

(** [int64_t getPeriodicPublicationInterval(const Variant& qos)] *)
Definition getPeriodicPublicationInterval (qos : Variant) : Outcome Z :=
  match as_OnChangeWithKeepAlive qos with
  | Some subscriptionQos => Returns (ka_maxInterval subscriptionQos)
  | None =>
    match as_Periodic qos with
    | Some subscriptionQos => Returns (p_period subscriptionQos)
    | None => Returns (-1)%Z
    end
  end.

(** A [const SubscriptionQos&] by its dynamic type: one of the three
    classes, or the base class / any other subclass. *)
Inductive SubscriptionQos :=
| QOnChange (q : OnChangeSubscriptionQos)
| QOnChangeWithKeepAlive (q : OnChangeWithKeepAliveSubscriptionQos)
| QPeriodic (q : PeriodicSubscriptionQos)
| QOther (className : string).

Definition known (qos : SubscriptionQos) : bool :=
  match qos with QOther _ => false | _ => true end.

(** [dynamic_cast<const T*>(&qos)]; a keep-alive object is also an
    on-change object (its base sub-object). *)
Definition cast_OnChangeWithKeepAlive (qos : SubscriptionQos)
  : option OnChangeWithKeepAliveSubscriptionQos :=
  match qos with QOnChangeWithKeepAlive q => Some q | _ => None end.

Definition cast_OnChange (qos : SubscriptionQos) : option OnChangeSubscriptionQos :=
  match qos with
  | QOnChange q => Some q
  | QOnChangeWithKeepAlive q => Some (mkOnChange (ka_minInterval q))
  | _ => None
  end.

Definition cast_Periodic (qos : SubscriptionQos) : option PeriodicSubscriptionQos :=
  match qos with QPeriodic q => Some q | _ => None end.

Definition unknownQosMessage : string :=
  "Exception in SubscriptionUtil: reference to unknown SubscriptionQos has been sent".

(** [Variant getVariant(const SubscriptionQos& qos)]. [ndebug] tells
    whether [assert] is compiled out. *)
Definition getVariant (ndebug : bool) (qos : SubscriptionQos) : Outcome Variant :=
  match cast_OnChangeWithKeepAlive qos with
  | Some q => Returns (VOnChangeWithKeepAlive q)
  | None =>
    match cast_OnChange qos with
    | Some q => Returns (VOnChange q)
    | None =>
      match cast_Periodic qos with
      | Some q => Returns (VPeriodic q)
      | None => if ndebug then Throws unknownQosMessage else AssertFails
      end
    end
  end.

(** The three classifier results as one triple. *)
Definition classify (qos : Variant) : Outcome Z * Outcome Z * Outcome Z :=
  (getMinInterval qos, getPeriodicPublicationInterval qos, getAlertInterval qos).

(** *** The overloads on [QtSubscriptionQos*] *)

(** A Qt QoS object, seen through the three classes the functions ask
    about: a view is present when [qos->inherits(C::staticMetaObject
    .className())] holds, and is then what [qobject_cast<C*>(qos)] points
    to. The Qt classes carry the same intervals as the std ones. *)
Record QtSubscriptionQos := mkQtQos {
  asQtOnChange : option OnChangeSubscriptionQos;
  asQtOnChangeWithKeepAlive : option OnChangeWithKeepAliveSubscriptionQos;
  asQtPeriodic : option PeriodicSubscriptionQos
}.

(** [bool isOnChangeSubscription(QtSubscriptionQos* qos)] *)
Definition qt_isOnChangeSubscription (qos : QtSubscriptionQos) : Outcome bool :=
  Returns (is_some (asQtOnChange qos) || is_some (asQtOnChangeWithKeepAlive qos)).

(** [qint64 getAlertInterval(QtSubscriptionQos* qos)] *)
Definition qt_getAlertInterval (qos : QtSubscriptionQos) : Outcome Z :=
  match asQtPeriodic qos with
  | Some periodic => Returns (p_alertAfterInterval periodic)
  | None =>
    match asQtOnChangeWithKeepAlive qos with
    | Some keepAlive => Returns (ka_alertAfterInterval keepAlive)
    | None => Returns (-1)%Z
    end
  end.

(** [qint64 getMinInterval(QtSubscriptionQos* qos)] *)
Definition qt_getMinInterval (qos : QtSubscriptionQos) : Outcome Z :=
  match asQtOnChange qos with
  | Some onChange => Returns (oc_minInterval onChange)
  | None =>
    match asQtOnChangeWithKeepAlive qos with
    | Some keepAlive => Returns (ka_minInterval keepAlive)
    | None => Returns (-1)%Z
    end
  end.

(** [qint64 getPeriodicPublicationInterval(QtSubscriptionQos* qos)] *)
Definition qt_getPeriodicPublicationInterval (qos : QtSubscriptionQos) : Outcome Z :=
  match asQtOnChangeWithKeepAlive qos with
  | Some keepAlive => Returns (ka_maxInterval keepAlive)
  | None =>
    match asQtPeriodic qos with
    | Some periodic => Returns (p_period periodic)
    | None => Returns (-1)%Z
    end
  end.

Definition qt_classify (qos : QtSubscriptionQos) : Outcome Z * Outcome Z * Outcome Z :=
  (qt_getMinInterval qos, qt_getPeriodicPublicationInterval qos, qt_getAlertInterval qos).

End SubscriptionUtil.

(** ** MulticastReceiverDirectory.h *)
Module MulticastReceiverDirectory.

(** [std::unordered_map<std::string, std::unordered_set<std::string>>
    multicastReceivers]. The recursive mutex serialises the calls, so each
    operation is a function on the map. *)
Record MulticastReceiverDirectory := mkDirectory {
  multicastReceivers : gmap string (gset string)
}.

(** The default constructor. *)
Definition empty : MulticastReceiverDirectory := mkDirectory ∅.

(** Modelled from the spec: the member functions are declared in the header
    but defined in MulticastReceiverDirectory.cpp, which is not in the tree.
    [register(multicastId, receiverId)]: ensures membership; idempotent. *)
Definition registerMulticastReceiver (multicastId receiverId : string)
    (d : MulticastReceiverDirectory) : MulticastReceiverDirectory :=
  mkDirectory
    (<[multicastId := {[receiverId]} ∪ default ∅ (multicastReceivers d !! multicastId)]>
       (multicastReceivers d)).

(** Modelled from the spec: [unregister(multicastId, receiverId) → bool]
    removes membership and returns whether a change occurred; if the set
    becomes empty, the key is dropped. *)
Definition unregisterMulticastReceiver (multicastId receiverId : string)
    (d : MulticastReceiverDirectory) : MulticastReceiverDirectory * bool :=
  match multicastReceivers d !! multicastId with
  | None => (d, false)
  | Some receivers =>
    if decide (receiverId ∈ receivers) then
      let remaining := receivers ∖ {[receiverId]} in
      if decide (remaining = ∅)
      then (mkDirectory (delete multicastId (multicastReceivers d)), true)
      else (mkDirectory (<[multicastId := remaining]> (multicastReceivers d)), true)
    else (d, false)
  end.

(** Modelled from the spec: [getReceivers(multicastId) → set] returns a
    copy of the set; the empty set if the key is absent. *)
Definition getReceivers (multicastId : string) (d : MulticastReceiverDirectory)
    : gset string :=
  default ∅ (multicastReceivers d !! multicastId).

(** Modelled from the spec: [contains(multicastId)]. *)
Definition contains (multicastId : string) (d : MulticastReceiverDirectory) : bool :=
  bool_decide (is_Some (multicastReceivers d !! multicastId)).

(** Modelled from the spec: [contains(multicastId, receiverId)]. *)
Definition contains_receiver (multicastId receiverId : string)
    (d : MulticastReceiverDirectory) : bool :=
  bool_decide (receiverId ∈ getReceivers multicastId d).

(** [n] calls of [registerMulticastReceiver(multicastId, receiverId)]. *)
Fixpoint register_times (n : nat) (multicastId receiverId : string)
    (d : MulticastReceiverDirectory) : MulticastReceiverDirectory :=
  match n with
  | O => d
  | S k => registerMulticastReceiver multicastId receiverId
             (register_times k multicastId receiverId d)
  end.

End MulticastReceiverDirectory.

(** ** LocalDiscoveryAggregator.cpp *)
Module LocalDiscoveryAggregator.

(** Modelled from the spec: [RequestStatusCode] and [RequestStatus] are
    declared in headers outside the tree; a status carries a code
    ([OK | ERROR]) and the list of descriptions added so far. *)
Inductive RequestStatusCode := OK | ERROR.

Record RequestStatus := mkStatus {
  code : RequestStatusCode;
  description : list string
}.

Definition setCode (c : RequestStatusCode) (s : RequestStatus) : RequestStatus :=
  mkStatus c (description s).

Definition addDescription (d : string) (s : RequestStatus) : RequestStatus :=
  mkStatus (code s) (description s ++ [d]).

(** The transport tags the source names, and any other enumerator. *)
Inductive CommunicationMiddleware :=
| JOYNR
| IN_PROCESS
| OtherMiddleware (tag : nat).

(** Modelled from the spec: [ProviderQos] is declared outside the tree and
    only default-constructed and copied here; the spec's scenario gives a
    priority and a scope. *)
Record ProviderQos := mkProviderQos {
  priority : Z;
  scopeIsGlobal : bool
}.

Definition ProviderQos_default : ProviderQos := mkProviderQos 0 false.

(** [joynr::types::DiscoveryEntry] (Qt flavour), with the five constructor
    arguments the source passes. *)
Record DiscoveryEntry := mkDiscoveryEntry {
  qt_domain : string;
  qt_interfaceName : string;
  qt_participantId : string;
  qt_qos : ProviderQos;
  qt_connections : list CommunicationMiddleware
}.

(** [joynr::types::StdDiscoveryEntry]. *)
Record StdDiscoveryEntry := mkStdDiscoveryEntry {
  getDomain : string;
  getInterfaceName : string;
  getParticipantId : string;
  getQos : ProviderQos;
  getConnections : list CommunicationMiddleware
}.

Definition setConnections (connections : list CommunicationMiddleware)
    (e : StdDiscoveryEntry) : StdDiscoveryEntry :=
  mkStdDiscoveryEntry (getDomain e) (getInterfaceName e) (getParticipantId e)
    (getQos e) connections.

(** [DiscoveryEntry::createStd]: the same entry in the std flavour. *)
Definition createStd (e : DiscoveryEntry) : StdDiscoveryEntry :=
  mkStdDiscoveryEntry (qt_domain e) (qt_interfaceName e) (qt_participantId e)
    (qt_qos e) (qt_connections e).

(** [StdDiscoveryQos] is only handed on to the remote proxy. *)
Record StdDiscoveryQos := mkStdDiscoveryQos {
  cacheMaxAge : Z;
  discoveryScopeLocalOnly : bool;
  providerMustSupportOnChange : bool
}.

(** [IRequestCallerDirectory&]: what the aggregator asks of it. *)
Record IRequestCallerDirectory := mkRequestCallerDirectory {
  containsRequestCaller : string -> bool
}.

(** [SystemServicesSettings], with the interface names of the two system
    services (constants of generated headers, taken as data). *)
Record SystemServicesSettings := mkSettings {
  settings_getDomain : string;
  getCcRoutingProviderParticipantId : string;
  getCcDiscoveryProviderParticipantId : string;
  IRouting_INTERFACE_NAME : string;
  IDiscovery_INTERFACE_NAME : string
}.

(** [joynr::system::IDiscoverySync]: the remote discovery proxy, an object
    with state [R]; the out-parameters come back as results. *)
Class IDiscoverySync (R : Type) := {
  proxy_add : R -> RequestStatus -> StdDiscoveryEntry -> R * RequestStatus;
  proxy_lookup : R -> RequestStatus -> list StdDiscoveryEntry -> string -> string ->
                 StdDiscoveryQos -> R * RequestStatus * list StdDiscoveryEntry;
  proxy_lookup_id : R -> RequestStatus -> StdDiscoveryEntry -> string ->
                    R * RequestStatus * StdDiscoveryEntry;
  proxy_remove : R -> RequestStatus -> string -> R * RequestStatus
}.

(** The calls the aggregator makes on the remote proxy. *)
Inductive RemoteCall :=
| RemoteAdd (discoveryEntry : StdDiscoveryEntry)
| RemoteLookup (domain interfaceName : string) (discoveryQos : StdDiscoveryQos)
| RemoteLookupId (participantId : string)
| RemoteRemove (participantId : string).

(** The aggregator object. [discoveryProxy = None] is the NULL pointer. *)
Record LocalDiscoveryAggregator (R : Type) := mkAggregator {
  discoveryProxy : option R;
  hasOwnershipOfDiscoveryProxy : bool;
  requestCallerDirectory : IRequestCallerDirectory;
  provisionedDiscoveryEntries : gmap string DiscoveryEntry;
  systemServicesSettings : SystemServicesSettings
}.
Arguments mkAggregator {R}.
Arguments discoveryProxy {R}.
Arguments hasOwnershipOfDiscoveryProxy {R}.
Arguments requestCallerDirectory {R}.
Arguments provisionedDiscoveryEntries {R}.
Arguments systemServicesSettings {R}.

(** What one call leaves behind: the object, the status, the result
    out-parameter and the remote calls made, in order. *)
Record Call (R A : Type) := mkCall {
  self : LocalDiscoveryAggregator R;
  status : RequestStatus;
  result : A;
  forwarded : list RemoteCall
}.
Arguments mkCall {R A}.
Arguments self {R A}.
Arguments status {R A}.
Arguments result {R A}.
Arguments forwarded {R A}.

Definition discoveryProxyNotSet : string :=
  "LocalDiscoveryAggregator: discoveryProxy not set. Couldn't reach local capabilitites directory.".

Section Operations.
Context {R : Type} `{IDiscoverySync R}.

(** The constructor. *)
Definition create (requestCallerDirectory : IRequestCallerDirectory)
    (systemServicesSettings : SystemServicesSettings) : LocalDiscoveryAggregator R :=
  let connections := [JOYNR] in
  let routingProviderDiscoveryEntry :=
    mkDiscoveryEntry (settings_getDomain systemServicesSettings)
      (IRouting_INTERFACE_NAME systemServicesSettings)
      (getCcRoutingProviderParticipantId systemServicesSettings)
      ProviderQos_default connections in
  let provisioned1 :=
    <[qt_participantId routingProviderDiscoveryEntry := routingProviderDiscoveryEntry]>
      (∅ : gmap string DiscoveryEntry) in
  let discoveryProviderDiscoveryEntry :=
    mkDiscoveryEntry (settings_getDomain systemServicesSettings)
      (IDiscovery_INTERFACE_NAME systemServicesSettings)
      (getCcDiscoveryProviderParticipantId systemServicesSettings)
      ProviderQos_default connections in
  let provisioned2 :=
    <[qt_participantId discoveryProviderDiscoveryEntry := discoveryProviderDiscoveryEntry]>
      provisioned1 in
  mkAggregator None false requestCallerDirectory provisioned2 systemServicesSettings.

Definition setDiscoveryProxy (proxy : R) (a : LocalDiscoveryAggregator R)
    : LocalDiscoveryAggregator R :=
  mkAggregator (Some proxy) true (requestCallerDirectory a)
    (provisionedDiscoveryEntries a) (systemServicesSettings a).

(** The pointee of [discoveryProxy] after a forwarded call. *)
Definition with_proxy (proxy : R) (a : LocalDiscoveryAggregator R)
    : LocalDiscoveryAggregator R :=
  mkAggregator (Some proxy) (hasOwnershipOfDiscoveryProxy a) (requestCallerDirectory a)
    (provisionedDiscoveryEntries a) (systemServicesSettings a).

(** The error branch shared by the four operations. *)
Definition proxyNotSet (joynrInternalStatus : RequestStatus) : RequestStatus :=
  addDescription discoveryProxyNotSet (setCode ERROR joynrInternalStatus).

Definition add (a : LocalDiscoveryAggregator R) (joynrInternalStatus : RequestStatus)
    (discoveryEntry : StdDiscoveryEntry) : Call R unit :=
  match discoveryProxy a with
  | None => mkCall a (proxyNotSet joynrInternalStatus) tt []
  | Some proxy =>
    let '(proxy', status') := proxy_add proxy joynrInternalStatus discoveryEntry in
    mkCall (with_proxy proxy' a) status' tt [RemoteAdd discoveryEntry]
  end.

Definition checkForLocalAvailabilityAndAddInProcessConnection
    (a : LocalDiscoveryAggregator R) (discoveryEntry : StdDiscoveryEntry)
    : StdDiscoveryEntry :=
  let participantId := getParticipantId discoveryEntry in
  if containsRequestCaller (requestCallerDirectory a) participantId then
    let connections := getConnections discoveryEntry in
    setConnections (IN_PROCESS :: connections) discoveryEntry
  else discoveryEntry.

(** [lookup(status, result, domain, interfaceName, discoveryQos)] *)
Definition lookup (a : LocalDiscoveryAggregator R) (joynrInternalStatus : RequestStatus)
    (result0 : list StdDiscoveryEntry) (domain interfaceName : string)
    (discoveryQos : StdDiscoveryQos) : Call R (list StdDiscoveryEntry) :=
  match discoveryProxy a with
  | None => mkCall a (proxyNotSet joynrInternalStatus) result0 []
  | Some proxy =>
    let '(proxy', status', result') :=
      proxy_lookup proxy joynrInternalStatus result0 domain interfaceName discoveryQos in
    mkCall (with_proxy proxy' a) status'
      (map (checkForLocalAvailabilityAndAddInProcessConnection a) result')
      [RemoteLookup domain interfaceName discoveryQos]
  end.

(** [lookup(status, result, participantId)] *)
Definition lookup_id (a : LocalDiscoveryAggregator R) (joynrInternalStatus : RequestStatus)
    (result0 : StdDiscoveryEntry) (participantId : string) : Call R StdDiscoveryEntry :=
  match provisionedDiscoveryEntries a !! participantId with
  | Some provisioned =>
    mkCall a (setCode OK joynrInternalStatus)
      (checkForLocalAvailabilityAndAddInProcessConnection a (createStd provisioned)) []
  | None =>
    match discoveryProxy a with
    | None => mkCall a (proxyNotSet joynrInternalStatus) result0 []
    | Some proxy =>
      let '(proxy', status', result') :=
        proxy_lookup_id proxy joynrInternalStatus result0 participantId in
      mkCall (with_proxy proxy' a) status'
        (checkForLocalAvailabilityAndAddInProcessConnection a result')
        [RemoteLookupId participantId]
    end
  end.

Definition remove (a : LocalDiscoveryAggregator R) (joynrInternalStatus : RequestStatus)
    (participantId : string) : Call R unit :=
  match discoveryProxy a with
  | None => mkCall a (proxyNotSet joynrInternalStatus) tt []
  | Some proxy =>
    let '(proxy', status') := proxy_remove proxy joynrInternalStatus participantId in
    mkCall (with_proxy proxy' a) status' tt [RemoteRemove participantId]
  end.

End Operations.

(** A capabilities directory held in memory, standing for the remote side:
    entries are kept in a list, every call answers [OK]. *)
Definition matches (domain interfaceName : string) (e : StdDiscoveryEntry) : bool :=
  String.eqb (getDomain e) domain && String.eqb (getInterfaceName e) interfaceName.

#[export] Instance InMemoryDirectory : IDiscoverySync (list StdDiscoveryEntry) := {
  proxy_add r s e := (r ++ [e], setCode OK s);
  proxy_lookup r s _ domain interfaceName _ :=
    (r, setCode OK s, filter (fun e => matches domain interfaceName e = true) r);
  proxy_lookup_id r s res participantId :=
    match find (fun e => String.eqb (getParticipantId e) participantId) r with
    | Some e => (r, setCode OK s, e)
    | None => (r, setCode ERROR s, res)
    end;
  proxy_remove r s participantId :=
    (filter (fun e => String.eqb (getParticipantId e) participantId = false) r,
     setCode OK s)
}.

(** An entry carries the in-process tag first whenever its participant is
    registered in the request-caller directory of [a]. *)
Definition in_process_first {R} (a : LocalDiscoveryAggregator R)
    (e : StdDiscoveryEntry) : Prop :=
  containsRequestCaller (requestCallerDirectory a) (getParticipantId e) = true ->
  head (getConnections e) = Some IN_PROCESS.

(** A runtime whose request-caller directory holds the two system
    services, with nothing installed as remote proxy. *)
Definition systemSettings : SystemServicesSettings :=
  mkSettings "io.joynr.system" "CC.RoutingProvider.ParticipantId"
    "CC.DiscoveryProvider.ParticipantId" "system/Routing" "system/Discovery".

Definition localServices : IRequestCallerDirectory :=
  mkRequestCallerDirectory (fun participantId =>
    String.eqb participantId "CC.RoutingProvider.ParticipantId"
    || String.eqb participantId "CC.DiscoveryProvider.ParticipantId").

Definition noLocalServices : IRequestCallerDirectory :=
  mkRequestCallerDirectory (fun _ => false).

Definition freshStatus : RequestStatus := mkStatus OK [].

Definition blankEntry : StdDiscoveryEntry :=
  mkStdDiscoveryEntry "" "" "" ProviderQos_default [].

Definition ccAggregator : LocalDiscoveryAggregator (list StdDiscoveryEntry) :=
  create localServices systemSettings.

Definition discoveryProviderEntry : DiscoveryEntry :=
  mkDiscoveryEntry "io.joynr.system" "system/Discovery"
    "CC.DiscoveryProvider.ParticipantId" ProviderQos_default [JOYNR].

Definition routingProviderEntry : DiscoveryEntry :=
  mkDiscoveryEntry "io.joynr.system" "system/Routing"
    "CC.RoutingProvider.ParticipantId" ProviderQos_default [JOYNR].

(** The entry of the add-then-lookup scenario, and a lookup QoS. *)
Definition entryA : StdDiscoveryEntry :=
  mkStdDiscoveryEntry "SystemServicesDiscoveryTest.Domain.A"
    "SystemServicesDiscoveryTest.InterfaceName.A"
    "SystemServicesDiscoveryTest.ParticipantID.A" (mkProviderQos 1 false) [JOYNR].

Definition localOnly : StdDiscoveryQos := mkStdDiscoveryQos 5000 true false.

(** The same runtime once a remote proxy that knows [entryA] is installed. *)
Definition ccAggregatorWithProxy : LocalDiscoveryAggregator (list StdDiscoveryEntry) :=
  setDiscoveryProxy [entryA] ccAggregator.

(** The description as the specification words it. *)
Definition discoveryProxyNotSet_spec : string :=
  "discoveryProxy not set. Couldn't reach local capabilities directory.".

(** *** The destructor, and the states an aggregator goes through *)

Section Lifetime.
Context {R : Type} `{IDiscoverySync R}.

(** [~LocalDiscoveryAggregator()]: the object handed to [delete], if any
    ([delete] of a null pointer does nothing). *)
Definition destructor (a : LocalDiscoveryAggregator R) : option R :=
  if hasOwnershipOfDiscoveryProxy a then discoveryProxy a else None.

(** The aggregators that exist: constructed, then used through the public
    member functions, with any arguments. *)
Inductive reachable : LocalDiscoveryAggregator R -> Prop :=
| reach_create directory settings : reachable (create directory settings)
| reach_setDiscoveryProxy proxy a :
    reachable a -> reachable (setDiscoveryProxy proxy a)
| reach_add a joynrInternalStatus discoveryEntry :
    reachable a -> reachable (self (add a joynrInternalStatus discoveryEntry))
| reach_lookup a joynrInternalStatus result0 domain interfaceName discoveryQos :
    reachable a ->
    reachable (self (lookup a joynrInternalStatus result0 domain interfaceName
                       discoveryQos))
| reach_lookup_id a joynrInternalStatus result0 participantId :
    reachable a ->
    reachable (self (lookup_id a joynrInternalStatus result0 participantId))
| reach_remove a joynrInternalStatus participantId :
    reachable a -> reachable (self (remove a joynrInternalStatus participantId)).

End Lifetime.

(** The entry's participant is registered in the request-caller directory. *)
Definition isLocal {R} (a : LocalDiscoveryAggregator R) (e : StdDiscoveryEntry) : bool :=
  containsRequestCaller (requestCallerDirectory a) (getParticipantId e).

(** [a'] differs from [a] at most in the state of the remote proxy object. *)
Definition same_but_remote {R} (a a' : LocalDiscoveryAggregator R) : Prop :=
  provisionedDiscoveryEntries a' = provisionedDiscoveryEntries a
  /\ requestCallerDirectory a' = requestCallerDirectory a
  /\ systemServicesSettings a' = systemServicesSettings a
  /\ hasOwnershipOfDiscoveryProxy a' = hasOwnershipOfDiscoveryProxy a
  /\ is_nullptr (discoveryProxy a') = is_nullptr (discoveryProxy a).

End LocalDiscoveryAggregator.

(** ** ProxyBuilder.h *)
Module ProxyBuilder.

Record DiscoveryException := mkDiscoveryException {
  getMessage : string
}.

Record ProviderRuntimeException := mkProviderRuntimeException {
  getProviderMessage : string
}.

Record Version := mkVersion {
  majorVersion : Z;
  minorVersion : Z
}.

Record MessagingQos := mkMessagingQos {
  getTtl : Z
}.

Record DiscoveryQos := mkDiscoveryQos {
  getDiscoveryTimeoutMs : Z;
  getRetryIntervalMs : Z;
  getCacheMaxAgeMs : Z;
  getProviderMustSupportOnChange : bool
}.

(** The part of [types::DiscoveryEntryWithMetaInfo] the builder reads, and
    what identifies the provider. *)
Record DiscoveryEntryWithMetaInfo := mkEntry {
  getParticipantId : string;
  getIsLocal : bool;
  getEntryDomain : string;
  getEntryInterfaceName : string
}.

(** The template argument [T]: what the builder uses of the proxy class. *)
Record ProxyInterface := mkInterface {
  INTERFACE_NAME : string;
  MAJOR_VERSION : Z;
  MINOR_VERSION : Z
}.

(** [std::shared_ptr<JoynrRuntimeImpl>], a dispatcher address and a
    [std::weak_ptr<IDiscoveryAsync>] are handles. *)
Definition Runtime := nat.
Definition Address := string.
Definition DiscoveryProxyRef := nat.

(** A [std::function] handed in by the caller: empty, or the caller's
    handler, named by a number. *)
Definition std_function := option nat.

(** The proxy object [T] made by the factory. *)
Record Proxy := mkProxy {
  getProxyParticipantId : string;
  proxyRuntime : Runtime;
  proxyDomain : string;
  proxyMessagingQos : MessagingQos;
  arbitrationResult : option DiscoveryEntryWithMetaInfo
}.

(** [ProxyFactory&]: the factory chooses the participant id of the n-th
    proxy it creates. *)
Record ProxyFactory := mkProxyFactory {
  participantIdOfProxy : nat -> string
}.

(** [MessagingSettings&], as read by the constructor. *)
Record MessagingSettings := mkMessagingSettings {
  getMaximumTtlMs : Z;
  getDiscoveryDefaultTimeoutMs : Z;
  getDiscoveryDefaultRetryIntervalMs : Z
}.

(** The captures of the [arbitrationSucceeds] lambda ([this] and
    [thisWeakPtr] are the builder of the world below). *)
Record Closure := mkClosure {
  captured_onSuccess : std_function;
  captured_onError : std_function
}.

(** Modelled from the spec: [Arbitrator] and [ArbitratorFactory] are
    declared outside the tree. An arbitrator is started with two callbacks,
    can be stopped, and delivers exactly one terminal callback; stopping
    after the terminal callback is a no-op. *)
Inductive ArbitratorState := Created | Running | Stopped | Finished.

Record Arbitrator := mkArbitrator {
  arb_domain : string;
  arb_interfaceName : string;
  arb_interfaceVersion : Version;
  arb_discoveryProxy : DiscoveryProxyRef;
  arb_discoveryQos : DiscoveryQos;
  arb_state : ArbitratorState;
  arb_onSuccess : option Closure;
  arb_onError : std_function
}.

(** The captures of [onSuccessAddNextHop] and [onErrorAddNextHop], as the
    router holds them after [addNextHop]. *)
Record NextHop := mkNextHop {
  hop_onSuccess : std_function;
  hop_proxy : Proxy;
  hop_onError : std_function
}.

(** Everything observable: the caller's callbacks being invoked, the calls
    on the collaborators, and what the collaborators report back. *)
Inductive Event :=
| EvOnError (handler : nat) (exception : DiscoveryException)
| EvOnSuccess (handler : nat) (proxy : Proxy)
| EvCreateArbitrator (arbitrator : nat) (domain interfaceName : string)
    (interfaceVersion : Version) (discoveryProxy : DiscoveryProxyRef)
    (discoveryQos : DiscoveryQos)
| EvStartArbitration (arbitrator : nat)
| EvStopArbitration (arbitrator : nat)
| EvCreateProxy (runtime : Runtime) (domain : string) (messagingQos : MessagingQos)
| EvHandleArbitrationFinished (proxyParticipantId : string)
    (discoverEntry : DiscoveryEntryWithMetaInfo)
| EvSetToKnown (participantId : string)
| EvAddNextHop (participantId : string) (address : Address) (isGloballyVisible : bool)
    (expiryDateMs : Z) (isSticky : bool) (hop : nat)
| EvTerminate
| EvUncaught (what : string)
| EvArbitrationSucceeded (arbitrator : nat) (discoverEntry : DiscoveryEntryWithMetaInfo)
| EvArbitrationFailed (arbitrator : nat) (exception : DiscoveryException)
| EvNextHopAdded (hop : nat)
| EvNextHopFailed (hop : nat) (exception : ProviderRuntimeException).

(** The data members of [ProxyBuilder<T>]. The weak runtime pointer and the
    objects behind the shared pointers live in the world. *)
Record ProxyBuilder := mkProxyBuilder {
  T : ProxyInterface;
  domain : string;
  messagingQos : MessagingQos;
  proxyFactory : ProxyFactory;
  discoveryProxy : DiscoveryProxyRef;
  arbitrators : list nat;
  shuttingDown : bool;
  dispatcherAddress : Address;
  messagingMaximumTtlMs : Z;
  discoveryDefaultTimeoutMs : Z;
  discoveryDefaultRetryIntervalMs : Z;
  discoveryQos : DiscoveryQos
}.

(** The builder with its surroundings. *)
Record World := mkWorld {
  builder : ProxyBuilder;
  builderAlive : bool;
  runtime : option Runtime;
  arbitratorHeap : list Arbitrator;
  nextHops : list NextHop;
  proxiesCreated : nat;
  terminated : bool;
  trace : list Event
}.

Definition set_builder (b : ProxyBuilder) (w : World) : World :=
  mkWorld b (builderAlive w) (runtime w) (arbitratorHeap w) (nextHops w)
    (proxiesCreated w) (terminated w) (trace w).

Definition set_builderAlive (x : bool) (w : World) : World :=
  mkWorld (builder w) x (runtime w) (arbitratorHeap w) (nextHops w)
    (proxiesCreated w) (terminated w) (trace w).

Definition set_runtime (x : option Runtime) (w : World) : World :=
  mkWorld (builder w) (builderAlive w) x (arbitratorHeap w) (nextHops w)
    (proxiesCreated w) (terminated w) (trace w).

Definition set_arbitratorHeap (x : list Arbitrator) (w : World) : World :=
  mkWorld (builder w) (builderAlive w) (runtime w) x (nextHops w)
    (proxiesCreated w) (terminated w) (trace w).

Definition set_nextHops (x : list NextHop) (w : World) : World :=
  mkWorld (builder w) (builderAlive w) (runtime w) (arbitratorHeap w) x
    (proxiesCreated w) (terminated w) (trace w).

Definition set_proxiesCreated (x : nat) (w : World) : World :=
  mkWorld (builder w) (builderAlive w) (runtime w) (arbitratorHeap w) (nextHops w)
    x (terminated w) (trace w).

Definition set_terminated (x : bool) (w : World) : World :=
  mkWorld (builder w) (builderAlive w) (runtime w) (arbitratorHeap w) (nextHops w)
    (proxiesCreated w) x (trace w).

Definition set_trace (x : list Event) (w : World) : World :=
  mkWorld (builder w) (builderAlive w) (runtime w) (arbitratorHeap w) (nextHops w)
    (proxiesCreated w) (terminated w) x.

Definition set_arbitrators (x : list nat) (b : ProxyBuilder) : ProxyBuilder :=
  mkProxyBuilder (T b) (domain b) (messagingQos b) (proxyFactory b) (discoveryProxy b)
    x (shuttingDown b) (dispatcherAddress b) (messagingMaximumTtlMs b)
    (discoveryDefaultTimeoutMs b) (discoveryDefaultRetryIntervalMs b) (discoveryQos b).

Definition set_shuttingDown (x : bool) (b : ProxyBuilder) : ProxyBuilder :=
  mkProxyBuilder (T b) (domain b) (messagingQos b) (proxyFactory b) (discoveryProxy b)
    (arbitrators b) x (dispatcherAddress b) (messagingMaximumTtlMs b)
    (discoveryDefaultTimeoutMs b) (discoveryDefaultRetryIntervalMs b) (discoveryQos b).

Definition set_messagingQos (x : MessagingQos) (b : ProxyBuilder) : ProxyBuilder :=
  mkProxyBuilder (T b) (domain b) x (proxyFactory b) (discoveryProxy b)
    (arbitrators b) (shuttingDown b) (dispatcherAddress b) (messagingMaximumTtlMs b)
    (discoveryDefaultTimeoutMs b) (discoveryDefaultRetryIntervalMs b) (discoveryQos b).

Definition set_discoveryQos (x : DiscoveryQos) (b : ProxyBuilder) : ProxyBuilder :=
  mkProxyBuilder (T b) (domain b) (messagingQos b) (proxyFactory b) (discoveryProxy b)
    (arbitrators b) (shuttingDown b) (dispatcherAddress b) (messagingMaximumTtlMs b)
    (discoveryDefaultTimeoutMs b) (discoveryDefaultRetryIntervalMs b) x.

Definition set_arb_state (s : ArbitratorState) (a : Arbitrator) : Arbitrator :=
  mkArbitrator (arb_domain a) (arb_interfaceName a) (arb_interfaceVersion a)
    (arb_discoveryProxy a) (arb_discoveryQos a) s (arb_onSuccess a) (arb_onError a).

(** *** A state-and-exception monad for the member functions *)

Definition M (A : Type) : Type := World -> Outcome A * World.

Definition ret {A} (a : A) : M A := fun w => (Returns a, w).

Definition bind {A B} (m : M A) (k : A -> M B) : M B :=
  fun w =>
    match m w with
    | (Returns a, w') => k a w'
    | (AssertFails, w') => (AssertFails, w')
    | (Throws what, w') => (Throws what, w')
    end.

Notation "x <- m ;; k" := (bind m (fun x => k))
  (at level 100, m at next level, right associativity, only parsing).
Notation "m ;;; k" := (bind m (fun _ => k))
  (at level 100, right associativity, only parsing).

Definition throw {A} (what : string) : M A := fun w => (Throws what, w).

Definition gets {A} (f : World -> A) : M A := fun w => (Returns (f w), w).

Definition modify (f : World -> World) : M unit := fun w => (Returns tt, f w).

Definition emit (e : Event) : M unit :=
  modify (fun w => set_trace (trace w ++ [e]) w).

Definition modify_builder (f : ProxyBuilder -> ProxyBuilder) : M unit :=
  modify (fun w => set_builder (f (builder w)) w).

Fixpoint for_each {A} (l : list A) (body : A -> M unit) : M unit :=
  match l with
  | [] => ret tt
  | x :: rest => body x ;;; for_each rest body
  end.

(** *** Collaborators *)

(** Calling a [std::function]: an empty one throws [std::bad_function_call]. *)
Definition call_onError (onError : std_function) (exception : DiscoveryException)
    : M unit :=
  match onError with
  | Some handler => emit (EvOnError handler exception)
  | None => throw "bad_function_call"
  end.

Definition call_onSuccess (onSuccess : std_function) (proxy : Proxy) : M unit :=
  match onSuccess with
  | Some handler => emit (EvOnSuccess handler proxy)
  | None => throw "bad_function_call"
  end.

(** [ArbitratorFactory::createArbitrator]: a new arbitrator object; the
    shared pointer is its index in the heap. *)
Definition createArbitrator (domain interfaceName : string) (interfaceVersion : Version)
    (discoveryProxy : DiscoveryProxyRef) (discoveryQos : DiscoveryQos) : M nat :=
  arbitrator <- gets (fun w => length (arbitratorHeap w)) ;;
  modify (fun w => set_arbitratorHeap
    (arbitratorHeap w ++
       [mkArbitrator domain interfaceName interfaceVersion discoveryProxy discoveryQos
          Created None None]) w) ;;;
  emit (EvCreateArbitrator arbitrator domain interfaceName interfaceVersion
          discoveryProxy discoveryQos) ;;;
  ret arbitrator.

Definition update_arbitrator (arbitrator : nat) (f : Arbitrator -> Arbitrator) : M unit :=
  modify (fun w => set_arbitratorHeap
    (match arbitratorHeap w !! arbitrator with
     | Some a => <[arbitrator := f a]> (arbitratorHeap w)
     | None => arbitratorHeap w
     end) w).

(** [arbitrator->startArbitration(onSuccess, onError)] *)
Definition startArbitration (arbitrator : nat) (onSuccess : Closure)
    (onError : std_function) : M unit :=
  update_arbitrator arbitrator (fun a =>
    mkArbitrator (arb_domain a) (arb_interfaceName a) (arb_interfaceVersion a)
      (arb_discoveryProxy a) (arb_discoveryQos a) Running (Some onSuccess) onError) ;;;
  emit (EvStartArbitration arbitrator).

(** [arbitrator->stopArbitration()] *)
Definition stopArbitration (arbitrator : nat) : M unit :=
  update_arbitrator arbitrator (fun a =>
    match arb_state a with
    | Finished => a
    | _ => set_arb_state Stopped a
    end) ;;;
  emit (EvStopArbitration arbitrator).

(** [proxyFactory.createProxy<T>(runtime, domain, messagingQos)] *)
Definition createProxy (runtimeSharedPtr : Runtime) (domain : string)
    (messagingQos : MessagingQos) : M Proxy :=
  n <- gets proxiesCreated ;;
  factory <- gets (fun w => proxyFactory (builder w)) ;;
  modify (set_proxiesCreated (S n)) ;;;
  emit (EvCreateProxy runtimeSharedPtr domain messagingQos) ;;;
  ret (mkProxy (participantIdOfProxy factory n) runtimeSharedPtr domain messagingQos None).

(** [proxy->handleArbitrationFinished(discoverEntry)] *)
Definition handleArbitrationFinished (proxy : Proxy)
    (discoverEntry : DiscoveryEntryWithMetaInfo) : M Proxy :=
  emit (EvHandleArbitrationFinished (getProxyParticipantId proxy) discoverEntry) ;;;
  ret (mkProxy (getProxyParticipantId proxy) (proxyRuntime proxy) (proxyDomain proxy)
         (proxyMessagingQos proxy) (Some discoverEntry)).

(** [messageRouter->setToKnown(participantId)] *)
Definition setToKnown (participantId : string) : M unit :=
  emit (EvSetToKnown participantId).

(** [messageRouter->addNextHop(...)]: the router keeps the two callbacks. *)
Definition addNextHop (participantId : string) (address : Address)
    (isGloballyVisible : bool) (expiryDateMs : Z) (isSticky : bool)
    (callbacks : NextHop) : M unit :=
  hop <- gets (fun w => length (nextHops w)) ;;
  modify (fun w => set_nextHops (nextHops w ++ [callbacks]) w) ;;;
  emit (EvAddNextHop participantId address isGloballyVisible expiryDateMs isSticky hop).

(** *** The member functions *)

Definition runtimeAlreadyDestroyed : string :=
  "required runtime has been already destroyed".

Definition emptyParticipantId : string :=
  "Arbitration was set to successfull by arbitrator but ParticipantId is empty".

Definition couldNotBeAdded : string :=
  "Proxy could not be added to parent router: ".

Definition INT64_MAX : Z := 9223372036854775807.

Definition string_empty (s : string) : bool :=
  match s with EmptyString => true | _ => false end.

(** The constructor, for a builder owned by a shared pointer and a runtime
    [runtime] that may already be gone. [MessagingQos()] and
    [DiscoveryQos()] are the default-constructed values. *)
Definition create (T : ProxyInterface) (runtime : option Runtime)
    (proxyFactory : ProxyFactory) (discoveryProxy : DiscoveryProxyRef)
    (domain : string) (dispatcherAddress : Address)
    (messagingSettings : MessagingSettings)
    (defaultMessagingQos : MessagingQos) (defaultDiscoveryQos : DiscoveryQos) : World :=
  let discoveryDefaultTimeoutMs := getDiscoveryDefaultTimeoutMs messagingSettings in
  let discoveryDefaultRetryIntervalMs :=
    getDiscoveryDefaultRetryIntervalMs messagingSettings in
  let discoveryQos :=
    mkDiscoveryQos discoveryDefaultTimeoutMs discoveryDefaultRetryIntervalMs
      (getCacheMaxAgeMs defaultDiscoveryQos)
      (getProviderMustSupportOnChange defaultDiscoveryQos) in
  mkWorld
    (mkProxyBuilder T domain defaultMessagingQos proxyFactory discoveryProxy [] false
       dispatcherAddress (getMaximumTtlMs messagingSettings)
       discoveryDefaultTimeoutMs discoveryDefaultRetryIntervalMs discoveryQos)
    true runtime [] [] 0 false [].

(** [void stop()]. The loop variable is a copy of the shared pointer, so
    resetting it changes nothing else. *)
Definition stop : M unit :=
  modify_builder (set_shuttingDown true) ;;;
  arbs <- gets (fun w => arbitrators (builder w)) ;;
  for_each arbs stopArbitration ;;;
  modify_builder (set_arbitrators []).

(** The body of the [arbitrationSucceeds] lambda of [buildAsync]. *)
Definition arbitrationSucceeds (captures : Closure)
    (discoverEntry : DiscoveryEntryWithMetaInfo) : M unit :=
  let onSuccess := captured_onSuccess captures in
  let onError := captured_onError captures in
  proxyBuilderSharedPtr <- gets builderAlive ;;
  if negb proxyBuilderSharedPtr then
    call_onError onError (mkDiscoveryException runtimeAlreadyDestroyed)
  else
    runtimeSharedPtr <- gets runtime ;;
    match runtimeSharedPtr with
    | None => call_onError onError (mkDiscoveryException runtimeAlreadyDestroyed)
    | Some runtimeSharedPtr =>
      if string_empty (getParticipantId discoverEntry) then
        call_onError onError (mkDiscoveryException emptyParticipantId)
      else
        b <- gets builder ;;
        proxy <- createProxy runtimeSharedPtr (domain b) (messagingQos b) ;;
        proxy <- handleArbitrationFinished proxy discoverEntry ;;
        let isGloballyVisible := negb (getIsLocal discoverEntry) in
        let expiryDateMs := INT64_MAX in
        let isSticky := false in
        setToKnown (getParticipantId discoverEntry) ;;;
        addNextHop (getProxyParticipantId proxy) (dispatcherAddress b)
          isGloballyVisible expiryDateMs isSticky
          (mkNextHop onSuccess proxy onError)
    end.

(** [onSuccessAddNextHop] *)
Definition onSuccessAddNextHop (callbacks : NextHop) : M unit :=
  call_onSuccess (hop_onSuccess callbacks) (hop_proxy callbacks).

(** [onErrorAddNextHop] *)
Definition onErrorAddNextHop (callbacks : NextHop)
    (providerRuntimeException : ProviderRuntimeException) : M unit :=
  match hop_onError callbacks with
  | Some _ =>
    call_onError (hop_onError callbacks)
      (mkDiscoveryException
         (couldNotBeAdded +:+ getProviderMessage providerRuntimeException))
  | None => ret tt
  end.

(** The body of [buildAsync(onSuccess, onError)]. *)
Definition buildAsync_body (onSuccess onError : std_function) : M unit :=
  runtimeSharedPtr <- gets runtime ;;
  b <- gets builder ;;
  (if is_nullptr runtimeSharedPtr || shuttingDown b
   then call_onError onError (mkDiscoveryException runtimeAlreadyDestroyed)
   else ret tt) ;;;
  let interfaceVersion := mkVersion (MAJOR_VERSION (T b)) (MINOR_VERSION (T b)) in
  let arbitrationSucceeds := mkClosure onSuccess onError in
  arbitrator <- createArbitrator (domain b) (INTERFACE_NAME (T b)) interfaceVersion
                  (discoveryProxy b) (discoveryQos b) ;;
  startArbitration arbitrator arbitrationSucceeds onError ;;;
  modify_builder (fun b => set_arbitrators (arbitrators b ++ [arbitrator]) b).

(** A [noexcept] function: an exception that would leave it ends the
    process through [std::terminate]. *)
Definition noexcept (body : M unit) : World -> World :=
  fun w =>
    match body w with
    | (Returns _, w') => w'
    | (_, w') => set_terminated true (set_trace (trace w' ++ [EvTerminate]) w')
    end.

Definition buildAsync (onSuccess onError : std_function) : World -> World :=
  noexcept (buildAsync_body onSuccess onError).

(** [setMessagingQos] *)
Definition setMessagingQos (q : MessagingQos) : World -> World :=
  noexcept (modify_builder (fun b =>
    let b' := set_messagingQos q b in
    if (messagingMaximumTtlMs b' <? getTtl (messagingQos b'))%Z
    then set_messagingQos (mkMessagingQos (messagingMaximumTtlMs b')) b'
    else b')).

(** [setDiscoveryQos]; [NO_VALUE] is [DiscoveryQos::NO_VALUE()], a constant
    declared outside the tree. *)
Definition setDiscoveryQos (NO_VALUE : Z) (q : DiscoveryQos) : World -> World :=
  noexcept (modify_builder (fun b =>
    let q1 :=
      if (getDiscoveryTimeoutMs q =? NO_VALUE)%Z
      then mkDiscoveryQos (discoveryDefaultTimeoutMs b) (getRetryIntervalMs q)
             (getCacheMaxAgeMs q) (getProviderMustSupportOnChange q)
      else q in
    let q2 :=
      if (getRetryIntervalMs q1 =? NO_VALUE)%Z
      then mkDiscoveryQos (getDiscoveryTimeoutMs q1) (discoveryDefaultRetryIntervalMs b)
             (getCacheMaxAgeMs q1) (getProviderMustSupportOnChange q1)
      else q1 in
    set_discoveryQos q2 b)).

(** *** The surroundings acting on the builder *)

(** A call from outside the builder, by the caller or on a collaborator's
    thread: the function is not [noexcept], so an exception that leaves it
    is recorded as uncaught and the process goes on. *)
Definition callback (body : M unit) : World -> World :=
  fun w =>
    match body w with
    | (Returns _, w') => w'
    | (AssertFails, w') => set_trace (trace w' ++ [EvUncaught "assert"]) w'
    | (Throws what, w') => set_trace (trace w' ++ [EvUncaught what]) w'
    end.

Inductive Input :=
| CallStop
| CallBuildAsync (onSuccess onError : std_function)
| CallSetMessagingQos (messagingQos : MessagingQos)
| DestroyRuntime
| ReleaseBuilder
| ArbitrationSucceeds (arbitrator : nat) (discoverEntry : DiscoveryEntryWithMetaInfo)
| ArbitrationFails (arbitrator : nat) (exception : DiscoveryException)
| NextHopAdded (hop : nat)
| NextHopFailed (hop : nat) (exception : ProviderRuntimeException).

(** Modelled from the spec: the arbitrator's terminal callbacks. A running
    arbitrator may report success or failure, once; a stopped one no longer
    reports success. The failure callback is the caller's [onError], handed
    over unchanged. *)
Definition deliverSuccess (arbitrator : nat)
    (discoverEntry : DiscoveryEntryWithMetaInfo) : M unit :=
  heap <- gets arbitratorHeap ;;
  match heap !! arbitrator with
  | Some a =>
    match arb_state a, arb_onSuccess a with
    | Running, Some captures =>
      update_arbitrator arbitrator (set_arb_state Finished) ;;;
      emit (EvArbitrationSucceeded arbitrator discoverEntry) ;;;
      arbitrationSucceeds captures discoverEntry
    | _, _ => ret tt
    end
  | None => ret tt
  end.

Definition deliverFailure (arbitrator : nat) (exception : DiscoveryException) : M unit :=
  heap <- gets arbitratorHeap ;;
  match heap !! arbitrator with
  | Some a =>
    match arb_state a with
    | Running | Stopped =>
      update_arbitrator arbitrator (set_arb_state Finished) ;;;
      emit (EvArbitrationFailed arbitrator exception) ;;;
      call_onError (arb_onError a) exception
    | _ => ret tt
    end
  | None => ret tt
  end.

(** The router reporting on an [addNextHop]. *)
Definition reportNextHopAdded (hop : nat) : M unit :=
  hops <- gets nextHops ;;
  match hops !! hop with
  | Some callbacks => emit (EvNextHopAdded hop) ;;; onSuccessAddNextHop callbacks
  | None => ret tt
  end.

Definition reportNextHopFailed (hop : nat) (exception : ProviderRuntimeException)
    : M unit :=
  hops <- gets nextHops ;;
  match hops !! hop with
  | Some callbacks =>
    emit (EvNextHopFailed hop exception) ;;; onErrorAddNextHop callbacks exception
  | None => ret tt
  end.

(** One thing happening. Member functions can only be called on a builder
    that still exists; nothing happens in a terminated process. *)
Definition step (w : World) (i : Input) : World :=
  if terminated w then w else
  match i with
  | CallStop => if builderAlive w then callback stop w else w
  | CallBuildAsync onSuccess onError =>
    if builderAlive w then buildAsync onSuccess onError w else w
  | CallSetMessagingQos q => if builderAlive w then setMessagingQos q w else w
  | DestroyRuntime => set_runtime None w
  | ReleaseBuilder => set_builderAlive false w
  | ArbitrationSucceeds arbitrator discoverEntry =>
    callback (deliverSuccess arbitrator discoverEntry) w
  | ArbitrationFails arbitrator exception =>
    callback (deliverFailure arbitrator exception) w
  | NextHopAdded hop => callback (reportNextHopAdded hop) w
  | NextHopFailed hop exception => callback (reportNextHopFailed hop exception) w
  end.

Definition run (w : World) (inputs : list Input) : World :=
  fold_left step inputs w.

(** The events a function or an input adds to the trace. *)
Definition added (before after : World) : list Event :=
  drop (length (trace before)) (trace after).

(** The world after the arbitrator was created, started and retained. *)
Definition arbitrating (onSuccess onError : std_function) (w : World) : World :=
  let b := builder w in
  let arbitrator := length (arbitratorHeap w) in
  let interfaceVersion := mkVersion (MAJOR_VERSION (T b)) (MINOR_VERSION (T b)) in
  mkWorld (set_arbitrators (arbitrators b ++ [arbitrator]) b) (builderAlive w) (runtime w)
    (arbitratorHeap w ++
       [mkArbitrator (domain b) (INTERFACE_NAME (T b)) interfaceVersion (discoveryProxy b)
          (discoveryQos b) Running (Some (mkClosure onSuccess onError)) onError])
    (nextHops w) (proxiesCreated w) (terminated w)
    (trace w ++
       [EvCreateArbitrator arbitrator (domain b) (INTERFACE_NAME (T b)) interfaceVersion
          (discoveryProxy b) (discoveryQos b);
        EvStartArbitration arbitrator]).

(** *** Reading traces *)

Definition is_onSuccess (e : Event) : bool :=
  match e with EvOnSuccess _ _ => true | _ => false end.

Definition is_callerCallback (e : Event) : bool :=
  match e with EvOnSuccess _ _ | EvOnError _ _ => true | _ => false end.

Definition is_nextHopAdded (e : Event) : bool :=
  match e with EvNextHopAdded _ => true | _ => false end.

Definition is_createProxy (e : Event) : bool :=
  match e with EvCreateProxy _ _ _ => true | _ => false end.

(** No event of the list is the caller's [onSuccess]. *)
Definition quiet (events : list Event) : bool :=
  forallb (fun e => negb (is_onSuccess e)) events.

(** Every [onSuccess] in the trace comes directly after the router's
    report that the next hop was added; [reported] tells whether the event
    before the list was such a report. *)
Fixpoint success_only_after_report (reported : bool) (events : list Event) : bool :=
  match events with
  | [] => true
  | e :: rest =>
    (negb (is_onSuccess e) || reported)
    && success_only_after_report (is_nextHopAdded e) rest
  end.

(** A member function or callback that adds only quiet events. *)
Definition quiet_op {A} (m : M A) : Prop :=
  forall w, exists events, trace (m w).2 = (trace w ++ events)%list /\ quiet events = true.

(** *** A sample runtime *)

Definition discoveryInterface : ProxyInterface := mkInterface "system/Discovery" 0 1.

Definition sampleFactory : ProxyFactory :=
  mkProxyFactory (fun n => "proxy." +:+ String (Ascii.ascii_of_nat (48 + n)) "").

Definition sampleSettings : MessagingSettings := mkMessagingSettings 2592000000 50 10.

(** A freshly constructed builder in a live runtime. *)
Definition sampleWorld : World :=
  create discoveryInterface (Some 1) sampleFactory 0 "io.joynr.system" "dispatcher"
    sampleSettings (mkMessagingQos 60000) (mkDiscoveryQos 0 0 0 false).

(** The same builder after its runtime is gone. *)
Definition orphanWorld : World :=
  create discoveryInterface None sampleFactory 0 "io.joynr.system" "dispatcher"
    sampleSettings (mkMessagingQos 60000) (mkDiscoveryQos 0 0 0 false).

Definition providerEntry : DiscoveryEntryWithMetaInfo :=
  mkEntry "CC.DiscoveryProvider.ParticipantId" true "io.joynr.system" "system/Discovery".

(** The messages as the specification words them. *)
Definition runtimeAlreadyDestroyed_spec : string := "runtime already destroyed".

Definition couldNotBeAdded_spec : string :=
  "proxy could not be added to parent router: ".

(** *** [build()], up to the point where it waits *)

(** [std::shared_ptr<T> build()] until [proxyFuture->get]: the two lambdas
    handed to [buildAsync] resolve the future [proxyFuture]; both are
    callable. The exception thrown on a null runtime is a
    [DiscoveryException] with the given message. *)
Definition build_enter (proxyFuture : nat) : M unit :=
  runtimeSharedPtr <- gets runtime ;;
  if is_nullptr runtimeSharedPtr then throw runtimeAlreadyDestroyed
  else modify (buildAsync (Some proxyFuture) (Some proxyFuture)).

(** *** Relations every operation keeps *)

(** [m] takes every world to one related to it by [R]. *)
Definition preserves (R : World -> World -> Prop) {A} (m : M A) : Prop :=
  forall w, R w (m w).2.

(** The configuration a builder is constructed with. *)
Definition configuration (b : ProxyBuilder)
    : ProxyInterface * string * ProxyFactory * DiscoveryProxyRef * Address * Z * Z * Z :=
  (T b, domain b, proxyFactory b, discoveryProxy b, dispatcherAddress b,
   messagingMaximumTtlMs b, discoveryDefaultTimeoutMs b,
   discoveryDefaultRetryIntervalMs b).

(** [n] calls of [buildAsync], the k-th with handlers [2k] and [2k+1]. *)
Fixpoint buildAsync_times (n : nat) (w : World) : World :=
  match n with
  | O => w
  | S k => let w' := buildAsync_times k w in buildAsync (Some (2 * k)) (Some (2 * k + 1)) w'
  end.

(** What [stopArbitration] makes of an arbitrator. *)
Definition stopped (a : Arbitrator) : Arbitrator :=
  match arb_state a with
  | Finished => a
  | _ => set_arb_state Stopped a
  end.

(** The number of times the caller's [onError] handler was invoked. *)
Definition count_onError (handler : nat) (events : list Event) : nat :=
  length (filter (fun e => match e with
                           | EvOnError h _ => Nat.eqb h handler
                           | _ => false
                           end = true) events).

(** Every proxy creation in the trace comes directly after an arbitrator's
    success report; [reported] tells whether the event before the list was
    such a report. *)
Definition is_arbitrationSucceeded (e : Event) : bool :=
  match e with EvArbitrationSucceeded _ _ => true | _ => false end.

Fixpoint create_only_after_success (reported : bool) (events : list Event) : bool :=
  match events with
  | [] => true
  | e :: rest =>
    (negb (is_createProxy e) || reported)
    && create_only_after_success (is_arbitrationSucceeded e) rest
  end.

Definition no_createProxy (events : list Event) : bool :=
  forallb (fun e => negb (is_createProxy e)) events.

(** What a step can add to the trace, as far as the factory goes. *)
Definition factory_only_on_success (i : Input) (events : list Event) : Prop :=
  no_createProxy events = true
  \/ exists arbitrator discoverEntry rt domain messagingQos rest,
       i = ArbitrationSucceeds arbitrator discoverEntry
       /\ string_empty (getParticipantId discoverEntry) = false
       /\ events = EvArbitrationSucceeded arbitrator discoverEntry
                   :: EvCreateProxy rt domain messagingQos :: rest
       /\ no_createProxy rest = true.

(** A member function or callback that never reaches the proxy factory. *)
Definition creates_no_proxy {A} (m : M A) : Prop :=
  forall w, exists events,
    trace (m w).2 = (trace w ++ events)%list /\ no_createProxy events = true.

End ProxyBuilder.

(** ** SubscriptionCallback.h *)
Module SubscriptionCallback.

(** What the listener of a [SubscriptionCallback<T, Ts...>] is told; [V]
    stands for the values [T, Ts...]. *)
Inductive ListenerCall (V : Type) : Type :=
| ListenerOnError
| ListenerOnReceive (values : V).
Arguments ListenerOnError {V}.
Arguments ListenerOnReceive {V} values.

(** The callback object: its listener, by the calls made on it so far. *)
Record SubscriptionCallback (V : Type) := mkCallback {
  listener : list (ListenerCall V)
}.
Arguments mkCallback {V}.
Arguments listener {V}.

(** [void onError()] *)
Definition onError {V} (c : SubscriptionCallback V) : SubscriptionCallback V :=
  mkCallback (listener c ++ [ListenerOnError]).

(** [void onSuccess(const T& value, const Ts&... values)] *)
Definition onSuccess {V} (values : V) (c : SubscriptionCallback V)
    : SubscriptionCallback V :=
  mkCallback (listener c ++ [ListenerOnReceive values]).

(** [void timeOut()]: the body is empty. *)
Definition timeOut {V} (c : SubscriptionCallback V) : SubscriptionCallback V := c.

(** The member functions a publication source calls. *)
Inductive Invocation (V : Type) : Type :=
| CallOnError
| CallOnSuccess (values : V)
| CallTimeOut.
Arguments CallOnError {V}.
Arguments CallOnSuccess {V} values.
Arguments CallTimeOut {V}.

Definition invoke {V} (c : SubscriptionCallback V) (i : Invocation V)
    : SubscriptionCallback V :=
  match i with
  | CallOnError => onError c
  | CallOnSuccess values => onSuccess values c
  | CallTimeOut => timeOut c
  end.

Definition invoke_all {V} (c : SubscriptionCallback V) (l : list (Invocation V))
    : SubscriptionCallback V :=
  fold_left invoke l c.

(** What an invocation means to the listener. *)
Definition delivered {V} (i : Invocation V) : option (ListenerCall V) :=
  match i with
  | CallOnError => Some ListenerOnError
  | CallOnSuccess values => Some (ListenerOnReceive values)
  | CallTimeOut => None
  end.

End SubscriptionCallback.

(** * Properties *)

(** ** Subscription QoS classifier *)
Section ClassifierFacts.
Import SubscriptionUtil.

Lemma mentions_unknown_qos :
  mentions "reference to unknown SubscriptionQos" unknownQosMessage = true.
Proof. vm_compute. reflexivity. Qed.

Lemma getVariant_known ndebug qos :
  known qos = true ->
  exists v, getVariant ndebug qos = Returns v.
Proof. destruct qos; simpl; intros Hk; try discriminate; eauto. Qed.

(** [getVariant] keeps the dynamic type: checking the keep-alive class
    first is what stops a keep-alive value from being sliced to its
    on-change base. *)
Lemma getVariant_keeps_type ndebug :
  (forall q, getVariant ndebug (QOnChangeWithKeepAlive q) = Returns (VOnChangeWithKeepAlive q))
  /\ (forall q, getVariant ndebug (QOnChange q) = Returns (VOnChange q))
  /\ (forall q, getVariant ndebug (QPeriodic q) = Returns (VPeriodic q)).
Proof. repeat split; intros []; reflexivity. Qed.

(** C3. For a QoS value of one of the three known variants the classifier
    functions return the table of the specification:
    OnChangeWithKeepAlive gives (minInterval, maxInterval,
    alertAfterInterval), Periodic gives (-1, period, alertAfterInterval),
    OnChange gives (minInterval, -1, -1); and [isOnChangeSubscription]
    answers true exactly for the OnChange and OnChangeWithKeepAlive
    variants. *)
Theorem classifier_table :
  (forall q, classify (VOnChangeWithKeepAlive q) =
     (Returns (ka_minInterval q), Returns (ka_maxInterval q),
      Returns (ka_alertAfterInterval q)))
  /\ (forall q, classify (VPeriodic q) =
        (Returns (-1)%Z, Returns (p_period q), Returns (p_alertAfterInterval q)))
  /\ (forall q, classify (VOnChange q) =
        (Returns (oc_minInterval q), Returns (-1)%Z, Returns (-1)%Z))
  /\ (forall v, isOnChangeSubscription v = Returns true <->
        (exists q, v = VOnChange q) \/ (exists q, v = VOnChangeWithKeepAlive q))
  /\ (forall q, isOnChangeSubscription (VPeriodic q) = Returns false).
Proof.
  split; [ reflexivity | ].
  split; [ reflexivity | ].
  split; [ reflexivity | ].
  split; [ | reflexivity ].
  intros v; split.
  - destruct v as [q|q|q|n]; cbn; intros Hv; try discriminate; eauto.
  - intros [[q ->] | [q ->]]; reflexivity.
Qed.

(** The classifier scenario of the specification. *)
Example classifier_scenario :
  let keepAlive := VOnChangeWithKeepAlive (mkKeepAlive 100 1000 2000) in
  let periodic := VPeriodic (mkPeriodic 500 1500) in
  isOnChangeSubscription keepAlive = Returns true
  /\ classify keepAlive = (Returns 100%Z, Returns 1000%Z, Returns 2000%Z)
  /\ isOnChangeSubscription periodic = Returns false
  /\ classify periodic = (Returns (-1)%Z, Returns 500%Z, Returns 1500%Z).
Proof. repeat split. Qed.

(** C4, as the code has it. A QoS value of none of the three classes makes
    [getVariant] fail: its [assert(false)] fires, or with assertions
    compiled out it throws a runtime exception whose message mentions
    "reference to unknown SubscriptionQos"; it returns no variant. The
    classifier operations on a variant holding none of the three types
    raise nothing: the three interval getters return the default -1 and
    [isOnChangeSubscription] returns false. *)
Theorem unknown_qos_getVariant_raises_classifiers_default (name : string) :
  (exists what, getVariant true (QOther name) = Throws what
                /\ mentions "reference to unknown SubscriptionQos" what = true)
  /\ getVariant false (QOther name) = AssertFails
  /\ (forall ndebug, raises (getVariant ndebug (QOther name)))
  /\ classify (VOther name) = (Returns (-1)%Z, Returns (-1)%Z, Returns (-1)%Z)
  /\ isOnChangeSubscription (VOther name) = Returns false.
Proof.
  split.
  - exists unknownQosMessage. split; [ reflexivity | exact mentions_unknown_qos ].
  - split; [ reflexivity | ].
    split; [ intros []; exact I | ].
    split; reflexivity.
Qed.

(** C4, as stated, fails: on a variant that holds none of the three types
    each interval getter returns -1 instead of raising. *)
Lemma unknown_variant_classifiers_do_not_raise :
  let v := VOther "joynr::BroadcastFilterParameters" in
  getMinInterval v = Returns (-1)%Z
  /\ getPeriodicPublicationInterval v = Returns (-1)%Z
  /\ getAlertInterval v = Returns (-1)%Z
  /\ ~ raises (getMinInterval v)
  /\ ~ raises (getPeriodicPublicationInterval v)
  /\ ~ raises (getAlertInterval v).
Proof. cbn. repeat split; auto. Qed.

End ClassifierFacts.

(** ** Multicast receiver directory *)
Section DirectoryFacts.
Import MulticastReceiverDirectory.

Lemma getReceivers_register m r d :
  getReceivers m (registerMulticastReceiver m r d) = {[r]} ∪ getReceivers m d.
Proof.
  unfold getReceivers, registerMulticastReceiver. cbn.
  rewrite lookup_insert_eq. reflexivity.
Qed.

Lemma getReceivers_register_other m m' r d :
  m ≠ m' ->
  getReceivers m' (registerMulticastReceiver m r d) = getReceivers m' d.
Proof.
  intros Hne. unfold getReceivers, registerMulticastReceiver. cbn.
  rewrite lookup_insert_ne by exact Hne. reflexivity.
Qed.

(** Registration is idempotent. *)
Lemma register_idempotent m r d :
  registerMulticastReceiver m r (registerMulticastReceiver m r d)
  = registerMulticastReceiver m r d.
Proof.
  unfold registerMulticastReceiver. cbn. f_equal.
  rewrite lookup_insert_eq. cbn. rewrite insert_insert_eq.
  f_equal. set_solver.
Qed.

Lemma register_times_member n m r d :
  r ∈ getReceivers m (register_times (S n) m r d).
Proof. cbn. rewrite getReceivers_register. set_solver. Qed.

Lemma getReceivers_unregister m r d :
  getReceivers m (unregisterMulticastReceiver m r d).1 = getReceivers m d ∖ {[r]}.
Proof.
  unfold getReceivers, unregisterMulticastReceiver.
  destruct (multicastReceivers d !! m) as [receivers|] eqn:Hm; cbn.
  - destruct (decide (r ∈ receivers)) as [Hin|Hnin].
    + destruct (decide (receivers ∖ {[r]} = ∅)) as [He|Hne]; cbn.
      * rewrite lookup_delete_eq. cbn. symmetry. exact He.
      * rewrite lookup_insert_eq. reflexivity.
    + cbn. rewrite Hm. cbn. set_solver.
  - rewrite Hm. cbn. set_solver.
Qed.

(** Unregistering reports a change exactly when the receiver was there. *)
Lemma unregister_reports_change m r d :
  (unregisterMulticastReceiver m r d).2 = bool_decide (r ∈ getReceivers m d).
Proof.
  unfold getReceivers, unregisterMulticastReceiver.
  destruct (multicastReceivers d !! m) as [receivers|] eqn:Hm; cbn.
  - destruct (decide (r ∈ receivers)) as [Hin|Hnin].
    + destruct (decide (receivers ∖ {[r]} = ∅)); cbn;
        symmetry; apply bool_decide_eq_true; exact Hin.
    + cbn. symmetry. apply bool_decide_eq_false. exact Hnin.
  - symmetry. apply bool_decide_eq_false. set_solver.
Qed.

(** C9. After any number of [registerMulticastReceiver(m, r)] calls and
    one [unregisterMulticastReceiver(m, r)] call, [r] is not among
    [getReceivers(m)]: membership is a set, not a count. *)
Theorem unregister_once_removes (n : nat) (m r : string)
    (d : MulticastReceiverDirectory) :
  r ∉ getReceivers m (unregisterMulticastReceiver m r (register_times n m r d)).1.
Proof. rewrite getReceivers_unregister. set_solver. Qed.

End DirectoryFacts.

(** ** Local discovery aggregator *)
Section AggregatorFacts.
Import LocalDiscoveryAggregator.

Context {R : Type} `{IDiscoverySync R}.

Lemma annotation_in_process_first (a : LocalDiscoveryAggregator R) e :
  in_process_first a (checkForLocalAvailabilityAndAddInProcessConnection a e).
Proof.
  unfold in_process_first, checkForLocalAvailabilityAndAddInProcessConnection.
  destruct (containsRequestCaller (requestCallerDirectory a) (getParticipantId e)) eqn:Hc;
    cbn; intros Hin.
  - reflexivity.
  - congruence.
Qed.

Lemma annotation_keeps_participantId (a : LocalDiscoveryAggregator R) e :
  getParticipantId (checkForLocalAvailabilityAndAddInProcessConnection a e)
  = getParticipantId e.
Proof.
  unfold checkForLocalAvailabilityAndAddInProcessConnection.
  destruct (containsRequestCaller _ _); reflexivity.
Qed.

Lemma annotation_not_local (a : LocalDiscoveryAggregator R) e :
  containsRequestCaller (requestCallerDirectory a) (getParticipantId e) = false ->
  checkForLocalAvailabilityAndAddInProcessConnection a e = e.
Proof.
  intros Hc. unfold checkForLocalAvailabilityAndAddInProcessConnection.
  rewrite Hc. reflexivity.
Qed.

(** The operations never touch the provisioned entries, the directory
    reference or the ownership flag. *)
Lemma with_proxy_keeps (proxy : R) (a : LocalDiscoveryAggregator R) :
  provisionedDiscoveryEntries (with_proxy proxy a) = provisionedDiscoveryEntries a
  /\ requestCallerDirectory (with_proxy proxy a) = requestCallerDirectory a
  /\ hasOwnershipOfDiscoveryProxy (with_proxy proxy a) = hasOwnershipOfDiscoveryProxy a.
Proof. repeat split. Qed.

(** C5. Every entry a lookup returns (by participant id: the id is
    provisioned or a remote proxy is installed; by domain and interface: a
    remote proxy is installed) carries the in-process tag as its first
    connection if the request-caller directory contains its participant
    id. *)
Theorem lookup_entries_in_process_first (a : LocalDiscoveryAggregator R)
    (joynrInternalStatus : RequestStatus) :
  (forall result0 participantId,
      is_Some (provisionedDiscoveryEntries a !! participantId)
      \/ is_Some (discoveryProxy a) ->
      in_process_first a (result (lookup_id a joynrInternalStatus result0 participantId)))
  /\ (forall result0 domain interfaceName discoveryQos,
        is_Some (discoveryProxy a) ->
        Forall (in_process_first a)
          (result (lookup a joynrInternalStatus result0 domain interfaceName discoveryQos))).
Proof.
  split.
  - intros result0 participantId Hreturned. unfold lookup_id.
    destruct (provisionedDiscoveryEntries a !! participantId) as [provisioned|] eqn:Hp.
    + cbn. apply annotation_in_process_first.
    + destruct Hreturned as [[x Hx] | [proxy Hproxy]]; [ discriminate | ].
      rewrite Hproxy.
      destruct (proxy_lookup_id proxy joynrInternalStatus result0 participantId)
        as [[proxy' status'] result'].
      cbn. apply annotation_in_process_first.
  - intros result0 domain interfaceName discoveryQos [proxy Hproxy].
    unfold lookup. rewrite Hproxy.
    destruct (proxy_lookup proxy joynrInternalStatus result0 domain interfaceName
                discoveryQos) as [[proxy' status'] result'].
    cbn. apply List.Forall_forall. intros e He.
    apply in_map_iff in He. destruct He as [e0 [<- _]].
    apply annotation_in_process_first.
Qed.

(** The provisioned branch of the lookup by participant id. *)
Lemma lookup_id_provisioned (a : LocalDiscoveryAggregator R)
    (joynrInternalStatus : RequestStatus) (result0 : StdDiscoveryEntry)
    (participantId : string) (provisioned : DiscoveryEntry) :
  provisionedDiscoveryEntries a !! participantId = Some provisioned ->
  lookup_id a joynrInternalStatus result0 participantId
  = mkCall a (setCode OK joynrInternalStatus)
      (if containsRequestCaller (requestCallerDirectory a) (qt_participantId provisioned)
       then setConnections (IN_PROCESS :: qt_connections provisioned)
              (createStd provisioned)
       else createStd provisioned) [].
Proof. intros Hp. unfold lookup_id. rewrite Hp. reflexivity. Qed.

(** C6, as the code has it. For a provisioned participant id the lookup
    sets the status code to OK, makes no call on the remote proxy, leaves
    the aggregator as it was and returns the provisioned entry with the
    in-process tag put in front of its connections when the request-caller
    directory contains the entry's participant id (the provisioned entry
    itself otherwise). For an id that is not provisioned, with a proxy
    installed, the lookup is forwarded to the remote proxy: its status is
    the result's status and its entry, annotated the same way, the
    result. *)
Theorem lookup_id_provisioned_or_forwarded (a : LocalDiscoveryAggregator R)
    (joynrInternalStatus : RequestStatus) (result0 : StdDiscoveryEntry)
    (participantId : string) :
  (forall provisioned,
      provisionedDiscoveryEntries a !! participantId = Some provisioned ->
      let c := lookup_id a joynrInternalStatus result0 participantId in
      code (status c) = OK
      /\ forwarded c = []
      /\ self c = a
      /\ result c =
         (if containsRequestCaller (requestCallerDirectory a) (qt_participantId provisioned)
          then setConnections (IN_PROCESS :: qt_connections provisioned)
                 (createStd provisioned)
          else createStd provisioned))
  /\ (forall proxy,
        provisionedDiscoveryEntries a !! participantId = None ->
        discoveryProxy a = Some proxy ->
        let c := lookup_id a joynrInternalStatus result0 participantId in
        let remote := proxy_lookup_id proxy joynrInternalStatus result0 participantId in
        forwarded c = [RemoteLookupId participantId]
        /\ status c = remote.1.2
        /\ result c = checkForLocalAvailabilityAndAddInProcessConnection a remote.2
        /\ self c = with_proxy remote.1.1 a).
Proof.
  split.
  - intros provisioned Hp. cbn zeta. rewrite (lookup_id_provisioned _ _ _ _ _ Hp).
    repeat split.
  - intros proxy Hp Hproxy. unfold lookup_id. rewrite Hp, Hproxy.
    destruct (proxy_lookup_id proxy joynrInternalStatus result0 participantId)
      as [[proxy' status'] result'].
    cbn. repeat split.
Qed.

(** C7, as the code has it. With no remote proxy installed, [add],
    [lookup] by domain and interface, and [remove] set the status code to
    ERROR and add the description "LocalDiscoveryAggregator: discoveryProxy
    not set. Couldn't reach local capabilitites directory."; they make no
    call on a remote proxy and leave the aggregator (and the lookup's
    result vector) unchanged. *)
Theorem no_proxy_operations_fail (a : LocalDiscoveryAggregator R)
    (joynrInternalStatus : RequestStatus) :
  discoveryProxy a = None ->
  let failed :=
    mkStatus ERROR
      (description joynrInternalStatus ++
       ["LocalDiscoveryAggregator: discoveryProxy not set. Couldn't reach local capabilitites directory."]) in
  (forall discoveryEntry,
      add a joynrInternalStatus discoveryEntry = mkCall a failed tt [])
  /\ (forall result0 domain interfaceName discoveryQos,
        lookup a joynrInternalStatus result0 domain interfaceName discoveryQos
        = mkCall a failed result0 [])
  /\ (forall participantId,
        remove a joynrInternalStatus participantId = mkCall a failed tt []).
Proof.
  intros Hnull. cbn.
  unfold add, lookup, remove. rewrite Hnull.
  repeat split.
Qed.

(** The constructor provisions the two system services and installs no
    remote proxy. *)
Lemma create_provisions (directory : IRequestCallerDirectory)
    (settings : SystemServicesSettings) :
  let a : LocalDiscoveryAggregator R := create directory settings in
  discoveryProxy a = None
  /\ provisionedDiscoveryEntries a !! getCcDiscoveryProviderParticipantId settings
     = Some (mkDiscoveryEntry (settings_getDomain settings)
               (IDiscovery_INTERFACE_NAME settings)
               (getCcDiscoveryProviderParticipantId settings) ProviderQos_default [JOYNR])
  /\ is_Some (provisionedDiscoveryEntries a !! getCcRoutingProviderParticipantId settings)
  /\ (forall participantId provisioned,
        provisionedDiscoveryEntries a !! participantId = Some provisioned ->
        qt_participantId provisioned = participantId
        /\ qt_connections provisioned = [JOYNR]
        /\ qt_domain provisioned = settings_getDomain settings).
Proof.
  cbn. split; [ reflexivity | ].
  split; [ apply lookup_insert_eq | ].
  split.
  - destruct (decide (getCcDiscoveryProviderParticipantId settings
                      = getCcRoutingProviderParticipantId settings)) as [He|Hne].
    + rewrite <- He, lookup_insert_eq. eauto.
    + rewrite lookup_insert_ne by exact Hne. rewrite lookup_insert_eq. eauto.
  - intros participantId provisioned Hp.
    apply lookup_insert_Some in Hp.
    destruct Hp as [[<- <-] | [Hne Hp]]; [ repeat split | ].
    apply lookup_insert_Some in Hp.
    destruct Hp as [[<- <-] | [Hne' Hp]]; [ repeat split | ].
    rewrite lookup_empty in Hp. discriminate.
Qed.

(** C10, as the code has it. On an aggregator on which [setDiscoveryProxy]
    was never called, the lookup of a provisioned participant id sets the
    status code to OK, makes no remote call and returns the provisioned
    entry, with the in-process tag put in front of its connections when the
    request-caller directory contains the id; both system services are
    provisioned by the constructor. The missing-proxy error is what a
    lookup of an id that is not provisioned gets. *)
Theorem provisioned_lookup_needs_no_proxy (directory : IRequestCallerDirectory)
    (settings : SystemServicesSettings) (joynrInternalStatus : RequestStatus)
    (result0 : StdDiscoveryEntry) (participantId : string) :
  let a : LocalDiscoveryAggregator R := create directory settings in
  let c := lookup_id a joynrInternalStatus result0 participantId in
  discoveryProxy a = None
  /\ is_Some (provisionedDiscoveryEntries a !! getCcDiscoveryProviderParticipantId settings)
  /\ is_Some (provisionedDiscoveryEntries a !! getCcRoutingProviderParticipantId settings)
  /\ (forall provisioned,
        provisionedDiscoveryEntries a !! participantId = Some provisioned ->
        code (status c) = OK
        /\ forwarded c = []
        /\ result c =
           (if containsRequestCaller directory participantId
            then setConnections (IN_PROCESS :: qt_connections provisioned)
                   (createStd provisioned)
            else createStd provisioned))
  /\ (provisionedDiscoveryEntries a !! participantId = None ->
      status c = proxyNotSet joynrInternalStatus /\ result c = result0
      /\ forwarded c = []).
Proof.
  intros a c.
  destruct (create_provisions directory settings) as (Hnull & Hdisc & Hrout & Hkeys).
  fold a in Hnull, Hdisc, Hrout, Hkeys.
  split; [ exact Hnull | ].
  split; [ rewrite Hdisc; eauto | ].
  split; [ exact Hrout | ].
  split.
  - intros provisioned Hp.
    destruct (Hkeys _ _ Hp) as (Hid & _ & _).
    subst c. rewrite (lookup_id_provisioned _ _ _ _ _ Hp). cbn.
    rewrite Hid. repeat split.
  - intros Hp. subst c. unfold lookup_id. rewrite Hp, Hnull. repeat split.
Qed.

End AggregatorFacts.

Section AggregatorExamples.
Import LocalDiscoveryAggregator.

(** C5 at work: the discovery provider looked up by id on a runtime that
    hosts it, and a lookup by domain through an installed proxy. *)
Lemma lookup_entries_in_process_first_witness :
  in_process_first ccAggregator
    (result (lookup_id ccAggregator freshStatus blankEntry
               "CC.DiscoveryProvider.ParticipantId"))
  /\ Forall (in_process_first ccAggregatorWithProxy)
       (result (lookup ccAggregatorWithProxy freshStatus []
                  "SystemServicesDiscoveryTest.Domain.A"
                  "SystemServicesDiscoveryTest.InterfaceName.A" localOnly)).
Proof.
  split.
  - apply (proj1 (lookup_entries_in_process_first ccAggregator freshStatus)).
    left. exists discoveryProviderEntry. vm_compute. reflexivity.
  - apply (proj2 (lookup_entries_in_process_first ccAggregatorWithProxy freshStatus)).
    exists [entryA]. reflexivity.
Defined.

(** C6, as stated, fails: the discovery provider is provisioned and hosted
    in process, and what the lookup returns is not the provisioned entry
    but that entry with the in-process tag in front. *)
Lemma provisioned_lookup_is_annotated :
  let c := lookup_id ccAggregator freshStatus blankEntry
             "CC.DiscoveryProvider.ParticipantId" in
  provisionedDiscoveryEntries ccAggregator !! "CC.DiscoveryProvider.ParticipantId"
  = Some discoveryProviderEntry
  /\ getConnections (createStd discoveryProviderEntry) = [JOYNR]
  /\ getConnections (result c) = [IN_PROCESS; JOYNR]
  /\ result c <> createStd discoveryProviderEntry.
Proof.
  cbn zeta. split; [ vm_compute; reflexivity | ].
  split; [ reflexivity | ].
  split; [ vm_compute; reflexivity | ].
  intros Heq. apply (f_equal getConnections) in Heq. vm_compute in Heq. discriminate.
Qed.

Lemma lookup_id_provisioned_or_forwarded_witness :
  (let c := lookup_id ccAggregator freshStatus blankEntry
              "CC.DiscoveryProvider.ParticipantId" in
   code (status c) = OK /\ forwarded c = [] /\ self c = ccAggregator
   /\ result c =
      (if containsRequestCaller (requestCallerDirectory ccAggregator)
            (qt_participantId discoveryProviderEntry)
       then setConnections (IN_PROCESS :: qt_connections discoveryProviderEntry)
              (createStd discoveryProviderEntry)
       else createStd discoveryProviderEntry))
  /\ forwarded (lookup_id ccAggregatorWithProxy freshStatus blankEntry
                  "SystemServicesDiscoveryTest.ParticipantID.A")
     = [RemoteLookupId "SystemServicesDiscoveryTest.ParticipantID.A"].
Proof.
  split.
  - apply (proj1 (lookup_id_provisioned_or_forwarded ccAggregator freshStatus blankEntry
                    "CC.DiscoveryProvider.ParticipantId")).
    vm_compute. reflexivity.
  - apply (proj2 (lookup_id_provisioned_or_forwarded ccAggregatorWithProxy freshStatus
                    blankEntry "SystemServicesDiscoveryTest.ParticipantID.A") [entryA]).
    + vm_compute. reflexivity.
    + reflexivity.
Defined.

(** C7, as stated, fails on the wording of the description: the one the
    code adds is not the one the specification quotes, nor does it contain
    it. *)
Lemma no_proxy_description_differs :
  let c := add ccAggregator freshStatus entryA in
  discoveryProxy ccAggregator = None
  /\ code (status c) = ERROR
  /\ description (status c) =
     ["LocalDiscoveryAggregator: discoveryProxy not set. Couldn't reach local capabilitites directory."]
  /\ ~ In discoveryProxyNotSet_spec (description (status c))
  /\ existsb (mentions discoveryProxyNotSet_spec) (description (status c)) = false.
Proof.
  cbn zeta. split; [ reflexivity | ]. split; [ reflexivity | ].
  split; [ reflexivity | ].
  split; [ | vm_compute; reflexivity ].
  intros [Heq | []]. vm_compute in Heq. discriminate.
Qed.

Lemma no_proxy_operations_fail_witness :
  add ccAggregator freshStatus entryA
  = mkCall ccAggregator
      (mkStatus ERROR
         ["LocalDiscoveryAggregator: discoveryProxy not set. Couldn't reach local capabilitites directory."])
      tt [].
Proof.
  apply (proj1 (no_proxy_operations_fail ccAggregator freshStatus eq_refl)).
Defined.

(** C10, as stated, fails the same way as C6: with no proxy ever
    installed, the routing provider's lookup returns the provisioned entry
    with the in-process tag in front, not the provisioned entry. *)
Lemma provisioned_lookup_without_proxy_is_annotated :
  let a : LocalDiscoveryAggregator (list StdDiscoveryEntry) :=
    create localServices systemSettings in
  let c := lookup_id a freshStatus blankEntry "CC.RoutingProvider.ParticipantId" in
  discoveryProxy a = None
  /\ provisionedDiscoveryEntries a !! "CC.RoutingProvider.ParticipantId"
     = Some routingProviderEntry
  /\ code (status c) = OK
  /\ getConnections (result c) = [IN_PROCESS; JOYNR]
  /\ result c <> createStd routingProviderEntry.
Proof.
  cbn zeta. split; [ reflexivity | ].
  split; [ vm_compute; reflexivity | ].
  split; [ vm_compute; reflexivity | ].
  split; [ vm_compute; reflexivity | ].
  intros Heq. apply (f_equal getConnections) in Heq. vm_compute in Heq. discriminate.
Qed.

Lemma provisioned_lookup_needs_no_proxy_witness :
  let a : LocalDiscoveryAggregator (list StdDiscoveryEntry) :=
    create noLocalServices systemSettings in
  let c := lookup_id a freshStatus blankEntry "CC.RoutingProvider.ParticipantId" in
  code (status c) = OK /\ forwarded c = []
  /\ result c = createStd routingProviderEntry.
Proof.
  cbn zeta.
  apply (proj1 (proj2 (proj2 (proj2 (provisioned_lookup_needs_no_proxy
           (R := list StdDiscoveryEntry) noLocalServices systemSettings freshStatus
           blankEntry "CC.RoutingProvider.ParticipantId")))) routingProviderEntry).
  vm_compute. reflexivity.
Defined.

End AggregatorExamples.

(** ** Proxy builder *)
Section BuilderFacts.
Import ProxyBuilder.

(** *** The heap of arbitrators *)

Lemma lookup_fresh {A} (l : list A) (x : A) : (l ++ [x]) !! length l = Some x.
Proof. rewrite lookup_app_r by lia. rewrite Nat.sub_diag. reflexivity. Qed.

Lemma insert_fresh {A} (l : list A) (x y : A) : <[length l := y]> (l ++ [x]) = l ++ [y].
Proof.
  rewrite insert_app_r_alt by lia. rewrite Nat.sub_diag. reflexivity.
Qed.

(** The events after a known prefix of the trace. *)
Ltac trace_suffix :=
  match goal with
  | |- context [drop (length ?prefix) _] =>
    generalize prefix; intros ?; rewrite <- ?app_assoc, drop_app_length; cbn
  end.

(** *** What [buildAsync] does to the world *)

Lemma buildAsync_live (onSuccess onError : std_function) (w : World) rt :
  runtime w = Some rt -> shuttingDown (builder w) = false ->
  buildAsync onSuccess onError w = arbitrating onSuccess onError w.
Proof.
  intros Hrt Hsd. destruct w as [b alive r heap hops n term tr]. cbn in *. subst r.
  unfold buildAsync, noexcept, buildAsync_body, arbitrating, bind, gets. cbn.
  rewrite Hsd. cbn. rewrite lookup_fresh, insert_fresh. cbn.
  rewrite <- app_assoc. reflexivity.
Qed.

Lemma buildAsync_dead (onSuccess : std_function) (handler : nat) (w : World) :
  runtime w = None \/ shuttingDown (builder w) = true ->
  buildAsync onSuccess (Some handler) w
  = arbitrating onSuccess (Some handler)
      (set_trace (trace w ++
         [EvOnError handler (mkDiscoveryException runtimeAlreadyDestroyed)]) w).
Proof.
  intros Hdead. destruct w as [b alive r heap hops n term tr]. cbn in *.
  unfold buildAsync, noexcept, buildAsync_body, arbitrating, bind, gets. cbn.
  assert (is_nullptr r || shuttingDown b = true) as ->.
  { destruct Hdead as [-> | ->]; [ reflexivity | apply orb_true_r ]. }
  cbn. rewrite lookup_fresh, insert_fresh. cbn.
  rewrite <- !app_assoc. reflexivity.
Qed.

(** C1, as the code has it. When the weak runtime pointer cannot be
    upgraded or the builder is shutting down, [buildAsync] invokes the
    caller's [onError] with a DiscoveryException whose message is
    "required runtime has been already destroyed", before anything else it
    does. *)
Theorem buildAsync_reports_destroyed_runtime (w : World) (onSuccess : std_function)
    (handler : nat) :
  runtime w = None \/ shuttingDown (builder w) = true ->
  exists rest,
    added w (buildAsync onSuccess (Some handler) w)
    = EvOnError handler
        (mkDiscoveryException "required runtime has been already destroyed") :: rest.
Proof.
  intros Hdead. rewrite (buildAsync_dead _ _ _ Hdead).
  unfold added, arbitrating. cbn.
  rewrite <- app_assoc. rewrite drop_app_length. cbn. eauto.
Qed.

Lemma buildAsync_reports_destroyed_runtime_witness :
  exists rest,
    added orphanWorld (buildAsync (Some 0) (Some 1) orphanWorld)
    = EvOnError 1
        (mkDiscoveryException "required runtime has been already destroyed") :: rest.
Proof.
  apply (buildAsync_reports_destroyed_runtime orphanWorld (Some 0) 1).
  left. reflexivity.
Defined.

(** C1, as stated, fails twice over on a builder whose runtime is gone:
    the message handed to [onError] is not "runtime already destroyed",
    and [buildAsync] does not return after it: an arbitrator is created,
    started and added to the builder's list. *)
Lemma buildAsync_goes_on_after_onError :
  let w := buildAsync (Some 0) (Some 1) orphanWorld in
  runtime orphanWorld = None
  /\ arbitrators (builder orphanWorld) = []
  /\ ~ In (EvOnError 1 (mkDiscoveryException runtimeAlreadyDestroyed_spec)) (trace w)
  /\ In (EvOnError 1 (mkDiscoveryException "required runtime has been already destroyed"))
       (trace w)
  /\ In (EvStartArbitration 0) (trace w)
  /\ arbitrators (builder w) = [0]
  /\ length (arbitratorHeap w) = 1.
Proof.
  cbn zeta. split; [ reflexivity | ]. split; [ reflexivity | ].
  split.
  - vm_compute. intros [Heq | [Heq | [Heq | []]]]; discriminate.
  - split; [ vm_compute; auto | ].
    split; [ vm_compute; auto | ].
    split; reflexivity.
Qed.

(** *** What [stop] does to the world *)

Lemma stopArbitration_spec (arbitrator : nat) (w : World) :
  stopArbitration arbitrator w
  = (Returns tt,
     set_trace (trace w ++ [EvStopArbitration arbitrator])
       (set_arbitratorHeap
          (match arbitratorHeap w !! arbitrator with
           | Some a =>
             <[arbitrator := match arb_state a with
                             | Finished => a
                             | _ => set_arb_state Stopped a
                             end]> (arbitratorHeap w)
           | None => arbitratorHeap w
           end) w)).
Proof. reflexivity. Qed.

Lemma for_each_stopArbitration (l : list nat) :
  forall w, exists heap,
    length heap = length (arbitratorHeap w)
    /\ for_each l stopArbitration w
       = (Returns tt,
          set_trace (trace w ++ map EvStopArbitration l) (set_arbitratorHeap heap w)).
Proof.
  induction l as [|x l IH]; intros w.
  - exists (arbitratorHeap w). split; [ reflexivity | ].
    destruct w; cbn. rewrite app_nil_r. reflexivity.
  - cbn [for_each]. unfold bind at 1. rewrite stopArbitration_spec.
    match goal with
    | |- context [for_each l stopArbitration ?w1] => destruct (IH w1) as (heap & Hlen & ->)
    end.
    exists heap. split.
    + rewrite Hlen. cbn.
      destruct (arbitratorHeap w !! x); [ apply length_insert | reflexivity ].
    + destruct w; cbn. rewrite <- app_assoc. reflexivity.
Qed.

Lemma stop_spec (w : World) :
  exists heap,
    length heap = length (arbitratorHeap w)
    /\ callback stop w
       = mkWorld (set_arbitrators [] (set_shuttingDown true (builder w))) (builderAlive w)
           (runtime w) heap (nextHops w) (proxiesCreated w) (terminated w)
           (trace w ++ map EvStopArbitration (arbitrators (builder w))).
Proof.
  unfold callback, stop, bind, modify_builder, modify, gets. cbn.
  match goal with
  | |- context [for_each ?l stopArbitration ?w1] =>
    destruct (for_each_stopArbitration l w1) as (heap & Hlen & ->)
  end.
  exists heap. split; [ exact Hlen | ]. destruct w; reflexivity.
Qed.

(** [stop] is terminal for the flag: whatever happens next, the builder
    stays in the shutting-down state. *)
Lemma stop_sets_shuttingDown (w : World) :
  shuttingDown (builder (callback stop w)) = true
  /\ arbitrators (builder (callback stop w)) = [].
Proof. destruct (stop_spec w) as (heap & _ & ->). split; reflexivity. Qed.

(** *** The success callback of the arbitrator *)

(** What the [arbitrationSucceeds] lambda does on a live builder in a live
    runtime for an entry with a participant id. *)
Lemma arbitrationSucceeds_live (captures : Closure)
    (discoverEntry : DiscoveryEntryWithMetaInfo) (w : World) (rt : Runtime) :
  builderAlive w = true -> runtime w = Some rt ->
  string_empty (getParticipantId discoverEntry) = false ->
  let b := builder w in
  let proxy :=
    mkProxy (participantIdOfProxy (proxyFactory b) (proxiesCreated w)) rt (domain b)
      (messagingQos b) (Some discoverEntry) in
  arbitrationSucceeds captures discoverEntry w
  = (Returns tt,
     mkWorld b true (Some rt) (arbitratorHeap w)
       (nextHops w ++
          [mkNextHop (captured_onSuccess captures) proxy (captured_onError captures)])
       (S (proxiesCreated w)) (terminated w)
       (trace w ++
          [EvCreateProxy rt (domain b) (messagingQos b);
           EvHandleArbitrationFinished (getProxyParticipantId proxy) discoverEntry;
           EvSetToKnown (getParticipantId discoverEntry);
           EvAddNextHop (getProxyParticipantId proxy) (dispatcherAddress b)
             (negb (getIsLocal discoverEntry)) INT64_MAX false (length (nextHops w))])).
Proof.
  intros Halive Hrt Hpid. destruct w as [b alive r heap hops n term tr]. cbn in *.
  subst alive r.
  unfold arbitrationSucceeds, createProxy, handleArbitrationFinished, setToKnown,
    addNextHop, emit, modify, bind, gets, ret.
  cbn. rewrite Hpid. cbn. rewrite <- !app_assoc. reflexivity.
Qed.

(** *** One step, in a process that is still running *)

Lemma step_running (w : World) (i : Input) :
  terminated w = false ->
  step w i =
  match i with
  | CallStop => if builderAlive w then callback stop w else w
  | CallBuildAsync onSuccess onError =>
    if builderAlive w then buildAsync onSuccess onError w else w
  | CallSetMessagingQos q => if builderAlive w then setMessagingQos q w else w
  | DestroyRuntime => set_runtime None w
  | ReleaseBuilder => set_builderAlive false w
  | ArbitrationSucceeds arbitrator discoverEntry =>
    callback (deliverSuccess arbitrator discoverEntry) w
  | ArbitrationFails arbitrator exception =>
    callback (deliverFailure arbitrator exception) w
  | NextHopAdded hop => callback (reportNextHopAdded hop) w
  | NextHopFailed hop exception => callback (reportNextHopFailed hop exception) w
  end.
Proof. intros Hterm. unfold step. rewrite Hterm. reflexivity. Qed.

Lemma step_terminated (w : World) (i : Input) :
  terminated w = true -> step w i = w.
Proof. intros Hterm. unfold step. rewrite Hterm. reflexivity. Qed.

(** A running arbitrator delivering its entry runs the lambda. *)
Lemma deliverSuccess_running (w : World) (arbitrator : nat) (a : Arbitrator)
    (captures : Closure) (discoverEntry : DiscoveryEntryWithMetaInfo) :
  arbitratorHeap w !! arbitrator = Some a ->
  arb_state a = Running -> arb_onSuccess a = Some captures ->
  deliverSuccess arbitrator discoverEntry w
  = arbitrationSucceeds captures discoverEntry
      (set_trace (trace w ++ [EvArbitrationSucceeded arbitrator discoverEntry])
         (set_arbitratorHeap (<[arbitrator := set_arb_state Finished a]> (arbitratorHeap w))
            w)).
Proof.
  intros Ha Hstate Hcb.
  unfold deliverSuccess, bind at 1, gets. cbn. rewrite Ha, Hstate, Hcb.
  unfold update_arbitrator, emit, modify, bind. cbn. rewrite Ha. reflexivity.
Qed.

(** C2 on the code: a [buildAsync] called after [stop] still starts an
    arbitration, and when that arbitration succeeds the proxy factory is
    invoked. *)
Theorem buildAsync_after_stop_reaches_factory (w : World) (onSuccess : std_function)
    (handler : nat) (rt : Runtime) (discoverEntry : DiscoveryEntryWithMetaInfo) :
  terminated w = false -> builderAlive w = true -> runtime w = Some rt ->
  string_empty (getParticipantId discoverEntry) = false ->
  let stopped := step w CallStop in
  let started := step stopped (CallBuildAsync onSuccess (Some handler)) in
  let arbitrator := length (arbitratorHeap w) in
  shuttingDown (builder stopped) = true
  /\ In (EvStartArbitration arbitrator) (added stopped started)
  /\ In (EvCreateProxy rt (domain (builder w)) (messagingQos (builder w)))
       (added started (step started (ArbitrationSucceeds arbitrator discoverEntry))).
Proof.
  intros Hterm Halive Hrt Hpid. cbn zeta.
  rewrite (step_running w) by exact Hterm. rewrite Halive.
  destruct (stop_spec w) as (heap & Hlen & ->).
  rewrite <- Hlen. clear Hlen.
  destruct w as [b alive r heap0 hops n term tr]. cbn in *. subst alive r term.
  split; [ reflexivity | ].
  rewrite !(step_running _ (CallBuildAsync _ _)) by reflexivity.
  cbn [builderAlive].
  rewrite buildAsync_dead by (right; reflexivity).
  unfold arbitrating, added.
  cbn [trace builder runtime arbitratorHeap nextHops proxiesCreated terminated
       builderAlive set_trace].
  split.
  - trace_suffix. auto.
  - rewrite step_running by reflexivity. unfold callback.
    erewrite deliverSuccess_running;
      [ | cbn; apply lookup_fresh | reflexivity | reflexivity ].
    erewrite arbitrationSucceeds_live; [ | reflexivity | reflexivity | exact Hpid ].
    cbn. trace_suffix. auto.
Qed.

(** The failing run: [stop()], then [buildAsync], then the new arbitrator
    reports the discovery provider. *)
Lemma buildAsync_after_stop_reaches_factory_witness :
  let w := run sampleWorld
             [CallStop; CallBuildAsync (Some 0) (Some 1);
              ArbitrationSucceeds 0 providerEntry] in
  existsb is_createProxy (trace w) = true
  /\ In (EvCreateProxy 1 "io.joynr.system" (mkMessagingQos 60000))
       (added (run sampleWorld [CallStop; CallBuildAsync (Some 0) (Some 1)]) w).
Proof.
  cbn zeta. split; [ vm_compute; reflexivity | ].
  apply (buildAsync_after_stop_reaches_factory sampleWorld (Some 0) 1 1 providerEntry);
    reflexivity.
Defined.

(** *** Which operations can invoke the caller's [onSuccess] *)

Lemma quiet_app (l1 l2 : list Event) :
  quiet l1 = true -> quiet l2 = true -> quiet (l1 ++ l2) = true.
Proof.
  intros H1 H2. unfold quiet in *. rewrite forallb_app, H1, H2. reflexivity.
Qed.

Lemma quiet_ret {A} (a : A) : quiet_op (ret a).
Proof. intros w. exists []. cbn. rewrite app_nil_r. auto. Qed.

Lemma quiet_throw {A} (what : string) : quiet_op (@throw A what).
Proof. intros w. exists []. cbn. rewrite app_nil_r. auto. Qed.

Lemma quiet_gets {A} (f : World -> A) : quiet_op (gets f).
Proof. intros w. exists []. cbn. rewrite app_nil_r. auto. Qed.

Lemma quiet_modify (f : World -> World) :
  (forall w, trace (f w) = trace w) -> quiet_op (modify f).
Proof. intros Hf w. exists []. cbn. rewrite Hf, app_nil_r. auto. Qed.

Lemma quiet_emit (e : Event) : is_onSuccess e = false -> quiet_op (emit e).
Proof. intros He w. exists [e]. cbn. rewrite He. auto. Qed.

Lemma quiet_bind {A B} (m : M A) (k : A -> M B) :
  quiet_op m -> (forall a, quiet_op (k a)) -> quiet_op (bind m k).
Proof.
  intros Hm Hk w. unfold bind.
  destruct (Hm w) as (e1 & H1 & Q1).
  destruct (m w) as [[a| |what] w1]; cbn in *.
  - destruct (Hk a w1) as (e2 & H2 & Q2).
    exists (e1 ++ e2). rewrite H2, H1, app_assoc. auto using quiet_app.
  - eauto.
  - eauto.
Qed.

Lemma quiet_for_each {A} (l : list A) (body : A -> M unit) :
  (forall x, quiet_op (body x)) -> quiet_op (for_each l body).
Proof.
  intros Hbody. induction l as [|x l IH]; cbn.
  - apply quiet_ret.
  - apply quiet_bind; auto.
Qed.

Create HintDb quiet.
#[local] Hint Resolve quiet_ret quiet_throw quiet_gets quiet_for_each : quiet.
#[local] Hint Extern 1 (quiet_op (emit _)) => apply quiet_emit; reflexivity : quiet.
#[local] Hint Extern 1 (quiet_op (modify _)) =>
  apply quiet_modify; intros; reflexivity : quiet.
#[local] Hint Extern 2 (quiet_op (bind _ _)) => apply quiet_bind; [ | intros ] : quiet.
#[local] Hint Extern 3 (quiet_op (if ?c then _ else _)) => destruct c : quiet.
#[local] Hint Extern 3 (quiet_op (match ?x with _ => _ end)) => destruct x : quiet.

Lemma quiet_call_onError onError exception : quiet_op (call_onError onError exception).
Proof. unfold call_onError. auto with quiet. Qed.

Lemma quiet_update_arbitrator arbitrator f : quiet_op (update_arbitrator arbitrator f).
Proof. unfold update_arbitrator. auto with quiet. Qed.

Lemma quiet_modify_builder f : quiet_op (modify_builder f).
Proof. unfold modify_builder. auto with quiet. Qed.

#[local] Hint Resolve quiet_call_onError quiet_update_arbitrator quiet_modify_builder
  : quiet.

Lemma quiet_stopArbitration arbitrator : quiet_op (stopArbitration arbitrator).
Proof. unfold stopArbitration. auto with quiet. Qed.

Lemma quiet_stop : quiet_op stop.
Proof. unfold stop. auto 10 using quiet_stopArbitration with quiet. Qed.

Lemma quiet_buildAsync_body onSuccess onError :
  quiet_op (buildAsync_body onSuccess onError).
Proof.
  unfold buildAsync_body, createArbitrator, startArbitration.
  auto 20 with quiet.
Qed.

Lemma quiet_arbitrationSucceeds captures discoverEntry :
  quiet_op (arbitrationSucceeds captures discoverEntry).
Proof.
  unfold arbitrationSucceeds, createProxy, handleArbitrationFinished, setToKnown,
    addNextHop.
  auto 30 with quiet.
Qed.

Lemma quiet_deliverSuccess arbitrator discoverEntry :
  quiet_op (deliverSuccess arbitrator discoverEntry).
Proof.
  unfold deliverSuccess.
  apply quiet_bind; [ auto with quiet | intros heap ].
  destruct (heap !! arbitrator) as [a|]; [ | auto with quiet ].
  destruct (arb_state a); auto with quiet.
  destruct (arb_onSuccess a); auto 10 using quiet_arbitrationSucceeds with quiet.
Qed.

Lemma quiet_deliverFailure arbitrator exception :
  quiet_op (deliverFailure arbitrator exception).
Proof.
  unfold deliverFailure.
  apply quiet_bind; [ auto with quiet | intros heap ].
  destruct (heap !! arbitrator) as [a|]; [ | auto with quiet ].
  destruct (arb_state a); auto 10 with quiet.
Qed.

Lemma quiet_reportNextHopFailed hop exception :
  quiet_op (reportNextHopFailed hop exception).
Proof.
  unfold reportNextHopFailed, onErrorAddNextHop.
  apply quiet_bind; [ auto with quiet | intros hops ].
  destruct (hops !! hop) as [callbacks|]; [ | auto with quiet ].
  destruct (hop_onError callbacks); auto 10 with quiet.
Qed.

(** The two wrappers add at most one event, never an [onSuccess]. *)
Lemma callback_quiet (m : M unit) (w : World) :
  quiet_op m ->
  exists events, trace (callback m w) = trace w ++ events /\ quiet events = true.
Proof.
  intros Hm. unfold callback. destruct (Hm w) as (events & Ht & Hq).
  destruct (m w) as [[[]| |what] w1]; cbn in *.
  - eauto.
  - exists (events ++ [EvUncaught "assert"]). rewrite Ht, app_assoc. auto using quiet_app.
  - exists (events ++ [EvUncaught what]). rewrite Ht, app_assoc. auto using quiet_app.
Qed.

Lemma noexcept_quiet (m : M unit) (w : World) :
  quiet_op m ->
  exists events, trace (noexcept m w) = trace w ++ events /\ quiet events = true.
Proof.
  intros Hm. unfold noexcept. destruct (Hm w) as (events & Ht & Hq).
  destruct (m w) as [[[]| |what] w1]; cbn in *;
    [ eauto | exists (events ++ [EvTerminate]) .. ];
    rewrite Ht, app_assoc; auto using quiet_app.
Qed.

(** The router's success report is the one place where [onSuccess] is
    invoked, and there it comes directly after the report. *)
Lemma reportNextHopAdded_trace (hop : nat) (w : World) :
  exists events,
    trace (callback (reportNextHopAdded hop) w) = trace w ++ events
    /\ (quiet events = true
        \/ exists callbacks handler,
             nextHops w !! hop = Some callbacks
             /\ hop_onSuccess callbacks = Some handler
             /\ events = [EvNextHopAdded hop; EvOnSuccess handler (hop_proxy callbacks)]).
Proof.
  unfold callback, reportNextHopAdded, onSuccessAddNextHop, call_onSuccess,
    bind, gets, emit, modify, throw. cbn.
  destruct (nextHops w !! hop) as [callbacks|] eqn:Hhop; cbn.
  - destruct (hop_onSuccess callbacks) as [handler|] eqn:Hcb; cbn.
    + exists [EvNextHopAdded hop; EvOnSuccess handler (hop_proxy callbacks)].
      rewrite <- app_assoc. split; [ reflexivity | ]. right. eauto.
    + exists [EvNextHopAdded hop; EvUncaught "bad_function_call"].
      rewrite <- app_assoc. split; [ reflexivity | ]. left. reflexivity.
  - exists []. rewrite app_nil_r. auto.
Qed.

Lemma step_trace (w : World) (i : Input) :
  exists events,
    trace (step w i) = trace w ++ events
    /\ (quiet events = true
        \/ exists hop callbacks handler,
             i = NextHopAdded hop
             /\ nextHops w !! hop = Some callbacks
             /\ hop_onSuccess callbacks = Some handler
             /\ events = [EvNextHopAdded hop; EvOnSuccess handler (hop_proxy callbacks)]).
Proof.
  assert (exists events : list Event, trace w = trace w ++ events
            /\ (quiet events = true
                \/ exists hop callbacks handler,
                     i = NextHopAdded hop
                     /\ nextHops w !! hop = Some callbacks
                     /\ hop_onSuccess callbacks = Some handler
                     /\ events = [EvNextHopAdded hop;
                                  EvOnSuccess handler (hop_proxy callbacks)])) as Hsame.
  { exists []. rewrite app_nil_r. auto. }
  assert (forall w', (exists events, trace w' = trace w ++ events /\ quiet events = true) ->
            exists events, trace w' = trace w ++ events
              /\ (quiet events = true
                  \/ exists hop callbacks handler,
                       i = NextHopAdded hop
                       /\ nextHops w !! hop = Some callbacks
                       /\ hop_onSuccess callbacks = Some handler
                       /\ events = [EvNextHopAdded hop;
                                    EvOnSuccess handler (hop_proxy callbacks)])) as Hquiet.
  { intros w' (events & Ht & Hq). eauto. }
  unfold step. destruct (terminated w); [ exact Hsame | ].
  destruct i as [ | onSuccess onError | q | | | arbitrator discoverEntry
                | arbitrator exception | hop | hop exception ].
  - destruct (builderAlive w); [ | exact Hsame ].
    apply Hquiet, callback_quiet, quiet_stop.
  - destruct (builderAlive w); [ | exact Hsame ].
    apply Hquiet, noexcept_quiet, quiet_buildAsync_body.
  - destruct (builderAlive w); [ | exact Hsame ].
    apply Hquiet, noexcept_quiet, quiet_modify_builder.
  - exact Hsame.
  - exact Hsame.
  - apply Hquiet, callback_quiet, quiet_deliverSuccess.
  - apply Hquiet, callback_quiet, quiet_deliverFailure.
  - destruct (reportNextHopAdded_trace hop w) as (events & Ht & [Hq | Hs]).
    + apply Hquiet. eauto.
    + destruct Hs as (callbacks & handler & Hhop & Hcb & ->).
      exists [EvNextHopAdded hop; EvOnSuccess handler (hop_proxy callbacks)].
      split; [ exact Ht | ]. right. exists hop, callbacks, handler. auto.
  - apply Hquiet, callback_quiet, quiet_reportNextHopFailed.
Qed.

Lemma success_only_after_report_quiet (events : list Event) :
  quiet events = true -> forall reported, success_only_after_report reported events = true.
Proof.
  induction events as [|e events IH]; cbn; intros Hq reported; [ reflexivity | ].
  apply andb_true_iff in Hq. destruct Hq as [He Hq].
  rewrite He, (IH Hq). reflexivity.
Qed.

Lemma success_only_after_report_app (tr events : list Event) :
  forall reported,
    success_only_after_report reported tr = true ->
    (quiet events = true
     \/ exists hop handler proxy, events = [EvNextHopAdded hop; EvOnSuccess handler proxy]) ->
    success_only_after_report reported (tr ++ events) = true.
Proof.
  induction tr as [|e tr IH]; cbn; intros reported Htr Hev.
  - destruct Hev as [Hq | (hop & handler & proxy & ->)].
    + apply success_only_after_report_quiet. exact Hq.
    + reflexivity.
  - apply andb_true_iff in Htr. destruct Htr as [He Htr].
    rewrite He. cbn. apply IH; assumption.
Qed.

(** Along every run, the caller's [onSuccess] is only ever invoked
    directly after the router reported that the next hop was added. *)
Lemma run_success_only_after_report (inputs : list Input) :
  forall w,
    success_only_after_report false (trace w) = true ->
    success_only_after_report false (trace (run w inputs)) = true.
Proof.
  induction inputs as [|i inputs IH]; intros w Hw; [ exact Hw | ].
  cbn. apply IH.
  destruct (step_trace w i) as (events & -> & Hev).
  apply success_only_after_report_app; [ exact Hw | ].
  destruct Hev as [Hq | (hop & callbacks & handler & _ & _ & _ & ->)]; eauto.
Qed.

(** *** The router's answer to [addNextHop] *)

Lemma reportNextHopFailed_spec (w : World) (hop : nat) (callbacks : NextHop)
    (handler : nat) (exception : ProviderRuntimeException) :
  nextHops w !! hop = Some callbacks -> hop_onError callbacks = Some handler ->
  callback (reportNextHopFailed hop exception) w
  = set_trace
      (trace w ++
         [EvNextHopFailed hop exception;
          EvOnError handler
            (mkDiscoveryException (couldNotBeAdded +:+ getProviderMessage exception))]) w.
Proof.
  intros Hhop Hcb.
  unfold callback, reportNextHopFailed, onErrorAddNextHop, call_onError, bind, gets,
    emit, modify.
  cbn. rewrite Hhop. cbn. rewrite Hcb. cbn. rewrite <- app_assoc. reflexivity.
Qed.

Lemma reportNextHopAdded_spec (w : World) (hop : nat) (callbacks : NextHop)
    (handler : nat) :
  nextHops w !! hop = Some callbacks -> hop_onSuccess callbacks = Some handler ->
  callback (reportNextHopAdded hop) w
  = set_trace
      (trace w ++ [EvNextHopAdded hop; EvOnSuccess handler (hop_proxy callbacks)]) w.
Proof.
  intros Hhop Hcb.
  unfold callback, reportNextHopAdded, onSuccessAddNextHop, call_onSuccess, bind, gets,
    emit, modify.
  cbn. rewrite Hhop. cbn. rewrite Hcb. cbn. rewrite <- app_assoc. reflexivity.
Qed.

(** C8, as the code has it. In a [buildAsync] attempt whose arbitration
    succeeds with a non-empty participant id while builder and runtime are
    alive, the success callback creates the proxy and asks the router for
    the next hop without invoking a caller callback. If the router then
    reports failure, the caller's [onError] receives a DiscoveryException
    whose message is "Proxy could not be added to parent router: "
    followed by the router's message; the caller's [onSuccess] is invoked
    with the created proxy when the router reports success, and along any
    further run only directly after such a report. *)
Theorem addNextHop_outcome_reaches_caller (w : World) (arbitrator : nat) (a : Arbitrator)
    (onSuccess : std_function) (handler : nat) (rt : Runtime)
    (discoverEntry : DiscoveryEntryWithMetaInfo) :
  terminated w = false -> builderAlive w = true -> runtime w = Some rt ->
  arbitratorHeap w !! arbitrator = Some a ->
  arb_state a = Running ->
  arb_onSuccess a = Some (mkClosure onSuccess (Some handler)) ->
  string_empty (getParticipantId discoverEntry) = false ->
  let routed := step w (ArbitrationSucceeds arbitrator discoverEntry) in
  let hop := length (nextHops w) in
  let proxy :=
    mkProxy (participantIdOfProxy (proxyFactory (builder w)) (proxiesCreated w)) rt
      (domain (builder w)) (messagingQos (builder w)) (Some discoverEntry) in
  added w routed
  = [EvArbitrationSucceeded arbitrator discoverEntry;
     EvCreateProxy rt (domain (builder w)) (messagingQos (builder w));
     EvHandleArbitrationFinished (getProxyParticipantId proxy) discoverEntry;
     EvSetToKnown (getParticipantId discoverEntry);
     EvAddNextHop (getProxyParticipantId proxy) (dispatcherAddress (builder w))
       (negb (getIsLocal discoverEntry)) INT64_MAX false hop]
  /\ existsb is_callerCallback (added w routed) = false
  /\ (forall exception,
        added routed (step routed (NextHopFailed hop exception))
        = [EvNextHopFailed hop exception;
           EvOnError handler
             (mkDiscoveryException
                ("Proxy could not be added to parent router: "
                 +:+ getProviderMessage exception))])
  /\ (forall h, onSuccess = Some h ->
        added routed (step routed (NextHopAdded hop))
        = [EvNextHopAdded hop; EvOnSuccess h proxy])
  /\ (forall inputs,
        success_only_after_report false (trace w) = true ->
        success_only_after_report false (trace (run routed inputs)) = true).
Proof.
  intros Hterm Halive Hrt Ha Hstate Hcb Hpid. cbn zeta.
  assert (step w (ArbitrationSucceeds arbitrator discoverEntry)
          = mkWorld (builder w) true (Some rt)
              (<[arbitrator := set_arb_state Finished a]> (arbitratorHeap w))
              (nextHops w ++
                 [mkNextHop onSuccess
                    (mkProxy (participantIdOfProxy (proxyFactory (builder w))
                                (proxiesCreated w)) rt
                       (domain (builder w)) (messagingQos (builder w)) (Some discoverEntry))
                    (Some handler)])
              (S (proxiesCreated w)) false
              (trace w ++
                 [EvArbitrationSucceeded arbitrator discoverEntry;
                  EvCreateProxy rt (domain (builder w)) (messagingQos (builder w));
                  EvHandleArbitrationFinished
                    (participantIdOfProxy (proxyFactory (builder w)) (proxiesCreated w))
                    discoverEntry;
                  EvSetToKnown (getParticipantId discoverEntry);
                  EvAddNextHop
                    (participantIdOfProxy (proxyFactory (builder w)) (proxiesCreated w))
                    (dispatcherAddress (builder w)) (negb (getIsLocal discoverEntry))
                    INT64_MAX false (length (nextHops w))])) as Hrouted.
  { rewrite step_running by exact Hterm. unfold callback.
    rewrite (deliverSuccess_running w arbitrator a _ discoverEntry Ha Hstate Hcb).
    erewrite arbitrationSucceeds_live; [ | exact Halive | exact Hrt | exact Hpid ].
    cbn. rewrite Hterm, <- app_assoc. reflexivity. }
  rewrite Hrouted.
  split; [ unfold added; cbn; rewrite drop_app_length; reflexivity | ].
  split; [ unfold added; cbn; rewrite drop_app_length; reflexivity | ].
  split; [ | split ].
  - intros exception. rewrite step_running by reflexivity.
    erewrite reportNextHopFailed_spec; [ | cbn; apply lookup_fresh | reflexivity ].
    unfold added. cbn. trace_suffix. reflexivity.
  - intros h ->. rewrite step_running by reflexivity.
    erewrite reportNextHopAdded_spec; [ | cbn; apply lookup_fresh | reflexivity ].
    unfold added. cbn. trace_suffix. reflexivity.
  - intros inputs Hw. apply run_success_only_after_report. cbn.
    apply success_only_after_report_app; [ exact Hw | left; reflexivity ].
Qed.

(** The attempt of the discovery scenario: one [buildAsync], the arbitrator
    reports the discovery provider, the router refuses the route. *)
Lemma addNextHop_outcome_reaches_caller_witness :
  let w := run sampleWorld [CallBuildAsync (Some 0) (Some 1)] in
  let routed := step w (ArbitrationSucceeds 0 providerEntry) in
  added routed (step routed (NextHopFailed 0 (mkProviderRuntimeException "no route")))
  = [EvNextHopFailed 0 (mkProviderRuntimeException "no route");
     EvOnError 1
       (mkDiscoveryException "Proxy could not be added to parent router: no route")].
Proof.
  cbn zeta.
  apply (addNextHop_outcome_reaches_caller
           (run sampleWorld [CallBuildAsync (Some 0) (Some 1)]) 0
           (mkArbitrator "io.joynr.system" "system/Discovery" (mkVersion 0 1) 0
              (mkDiscoveryQos 50 10 0 false) Running
              (Some (mkClosure (Some 0) (Some 1))) (Some 1))
           (Some 0) 1 1 providerEntry); reflexivity.
Defined.

(** C8, as stated, fails on the wording: the message the caller receives
    does not start with "proxy could not be added to parent router: ". *)
Lemma addNextHop_failure_prefix_differs :
  let w := run sampleWorld
             [CallBuildAsync (Some 0) (Some 1); ArbitrationSucceeds 0 providerEntry;
              NextHopFailed 0 (mkProviderRuntimeException "no route")] in
  last (trace w)
  = Some (EvOnError 1
            (mkDiscoveryException "Proxy could not be added to parent router: no route"))
  /\ String.prefix couldNotBeAdded_spec
       "Proxy could not be added to parent router: no route" = false
  /\ ~ In (EvOnError 1 (mkDiscoveryException (couldNotBeAdded_spec +:+ "no route")))
         (trace w).
Proof.
  cbn zeta. split; [ vm_compute; reflexivity | ].
  split; [ vm_compute; reflexivity | ].
  vm_compute. intuition discriminate.
Qed.

End BuilderFacts.

(** * Further properties of the code *)

(** The events after a known prefix of the trace. *)
Ltac after_prefix :=
  match goal with
  | |- context [drop (length ?prefix) _] =>
    generalize prefix; intros ?; rewrite <- ?app_assoc, drop_app_length; cbn
  end.

(** ** Subscription QoS: [getVariant] and the Qt overloads *)
Section ClassifierMore.
Import SubscriptionUtil.




(** X3. On variants the classifiers hang together: a subscription that is
    not on-change has no minimum interval, and an on-change subscription
    with a periodic publication interval or an alert interval other than
    -1 is a keep-alive one. *)
Theorem variant_classifiers_consistent (v : Variant) :
  (isOnChangeSubscription v = Returns false -> getMinInterval v = Returns (-1)%Z)
  /\ (isOnChangeSubscription v = Returns true ->
      getPeriodicPublicationInterval v <> Returns (-1)%Z
      \/ getAlertInterval v <> Returns (-1)%Z ->
      exists q, v = VOnChangeWithKeepAlive q).
Proof.
  destruct v as [q|q|q|name]; cbn; split; intros Hon; try discriminate;
    try reflexivity; eauto; intros [Hne | Hne]; congruence.
Qed.

Lemma variant_classifiers_consistent_witness :
  getMinInterval (VPeriodic (mkPeriodic 500 1500)) = Returns (-1)%Z.
Proof.
  apply (proj1 (variant_classifiers_consistent (VPeriodic (mkPeriodic 500 1500)))).
  reflexivity.
Defined.

(** X4. The overloads on Qt objects give the same table. For a keep-alive
    object it does not matter whether the object also counts as an
    on-change object, as long as its on-change view carries the same
    minInterval. *)
Theorem qt_classifier_table (qos : QtSubscriptionQos) :
  (forall k,
      asQtOnChangeWithKeepAlive qos = Some k -> asQtPeriodic qos = None ->
      (forall o, asQtOnChange qos = Some o -> oc_minInterval o = ka_minInterval k) ->
      qt_classify qos = (Returns (ka_minInterval k), Returns (ka_maxInterval k),
                         Returns (ka_alertAfterInterval k))
      /\ qt_isOnChangeSubscription qos = Returns true)
  /\ (forall p,
        asQtPeriodic qos = Some p -> asQtOnChange qos = None ->
        asQtOnChangeWithKeepAlive qos = None ->
        qt_classify qos = (Returns (-1)%Z, Returns (p_period p),
                           Returns (p_alertAfterInterval p))
        /\ qt_isOnChangeSubscription qos = Returns false)
  /\ (forall o,
        asQtOnChange qos = Some o -> asQtOnChangeWithKeepAlive qos = None ->
        asQtPeriodic qos = None ->
        qt_classify qos = (Returns (oc_minInterval o), Returns (-1)%Z, Returns (-1)%Z)
        /\ qt_isOnChangeSubscription qos = Returns true).
Proof.
  destruct qos as [o k p]. unfold qt_classify, qt_getMinInterval,
    qt_getPeriodicPublicationInterval, qt_getAlertInterval, qt_isOnChangeSubscription.
  cbn. split; [ | split ].
  - intros x -> -> Hbase. destruct o as [o|]; cbn.
    + rewrite (Hbase o eq_refl). split; reflexivity.
    + split; reflexivity.
  - intros x -> -> ->. split; reflexivity.
  - intros x -> -> ->. split; reflexivity.
Qed.

Lemma qt_classifier_table_witness :
  qt_classify (mkQtQos (Some (mkOnChange 100)) (Some (mkKeepAlive 100 1000 2000)) None)
  = (Returns 100%Z, Returns 1000%Z, Returns 2000%Z)
  /\ qt_classify (mkQtQos None None (Some (mkPeriodic 500 1500)))
     = (Returns (-1)%Z, Returns 500%Z, Returns 1500%Z)
  /\ qt_classify (mkQtQos (Some (mkOnChange 100)) None None)
     = (Returns 100%Z, Returns (-1)%Z, Returns (-1)%Z).
Proof.
  split; [ | split ].
  - apply (proj1 (qt_classifier_table
             (mkQtQos (Some (mkOnChange 100)) (Some (mkKeepAlive 100 1000 2000)) None))
             (mkKeepAlive 100 1000 2000));
      [ reflexivity | reflexivity | ].
    intros o Ho. injection Ho as <-. reflexivity.
  - apply (proj1 (proj2 (qt_classifier_table
             (mkQtQos None None (Some (mkPeriodic 500 1500))))) (mkPeriodic 500 1500));
      reflexivity.
  - apply (proj2 (proj2 (qt_classifier_table
             (mkQtQos (Some (mkOnChange 100)) None None))) (mkOnChange 100));
      reflexivity.
Defined.

(** X5. Whatever the Qt class hierarchy, a Qt object that is not an
    on-change subscription has minimum interval -1, and one that is
    neither periodic nor keep-alive has periodic interval and alert
    interval -1. *)
Theorem qt_classifiers_consistent (qos : QtSubscriptionQos) :
  (qt_isOnChangeSubscription qos = Returns false ->
   qt_getMinInterval qos = Returns (-1)%Z)
  /\ (asQtPeriodic qos = None -> asQtOnChangeWithKeepAlive qos = None ->
      qt_getPeriodicPublicationInterval qos = Returns (-1)%Z
      /\ qt_getAlertInterval qos = Returns (-1)%Z).
Proof.
  destruct qos as [[o|] [k|] [p|]]; cbn; split; intros; try discriminate;
    try reflexivity; split; reflexivity.
Qed.

Lemma qt_classifiers_consistent_witness :
  qt_getMinInterval (mkQtQos None None (Some (mkPeriodic 500 1500))) = Returns (-1)%Z.
Proof.
  apply (proj1 (qt_classifiers_consistent
                  (mkQtQos None None (Some (mkPeriodic 500 1500))))).
  reflexivity.
Defined.

End ClassifierMore.

(** ** Subscription callback *)
Section CallbackMore.
Import SubscriptionCallback.

(** X6. The listener is told of every [onSuccess] and [onError], in the
    order they were made and with the values unchanged, and of nothing
    else: [timeOut] never reaches it. *)
Theorem listener_sees_all_but_timeouts {V : Type} (l : list (Invocation V))
    (c : SubscriptionCallback V) :
  listener (invoke_all c l) = listener c ++ omap delivered l.
Proof.
  revert c. induction l as [|i l IH]; intros c; cbn.
  - rewrite app_nil_r. reflexivity.
  - unfold invoke_all in IH. rewrite IH.
    destruct i; cbn; rewrite <- ?app_assoc; reflexivity.
Qed.

End CallbackMore.

(** ** Local discovery aggregator: what the operations keep and compose to *)
Section AggregatorMore.
Import LocalDiscoveryAggregator.
Context {R : Type} `{IDiscoverySync R}.

Lemma same_but_remote_refl (a : LocalDiscoveryAggregator R) : same_but_remote a a.
Proof. repeat split. Qed.

Lemma same_but_remote_with_proxy (proxy proxy' : R) (a : LocalDiscoveryAggregator R) :
  discoveryProxy a = Some proxy -> same_but_remote a (with_proxy proxy' a).
Proof. intros Hp. unfold same_but_remote. rewrite Hp. repeat split. Qed.

Lemma add_same_but_remote (a : LocalDiscoveryAggregator R) st e :
  same_but_remote a (self (add a st e)).
Proof.
  unfold add.
  destruct (discoveryProxy a) as [proxy|] eqn:Hp; [ | apply same_but_remote_refl ].
  destruct (proxy_add proxy st e) as [proxy' status'].
  apply (same_but_remote_with_proxy proxy). exact Hp.
Qed.

Lemma lookup_same_but_remote (a : LocalDiscoveryAggregator R) st result0 domain
    interfaceName discoveryQos :
  same_but_remote a (self (lookup a st result0 domain interfaceName discoveryQos)).
Proof.
  unfold lookup.
  destruct (discoveryProxy a) as [proxy|] eqn:Hp; [ | apply same_but_remote_refl ].
  destruct (proxy_lookup proxy st result0 domain interfaceName discoveryQos)
    as [[proxy' status'] result'].
  apply (same_but_remote_with_proxy proxy). exact Hp.
Qed.

Lemma lookup_id_same_but_remote (a : LocalDiscoveryAggregator R) st result0
    participantId :
  same_but_remote a (self (lookup_id a st result0 participantId)).
Proof.
  unfold lookup_id.
  destruct (provisionedDiscoveryEntries a !! participantId);
    [ apply same_but_remote_refl | ].
  destruct (discoveryProxy a) as [proxy|] eqn:Hp; [ | apply same_but_remote_refl ].
  destruct (proxy_lookup_id proxy st result0 participantId)
    as [[proxy' status'] result'].
  apply (same_but_remote_with_proxy proxy). exact Hp.
Qed.

Lemma remove_same_but_remote (a : LocalDiscoveryAggregator R) st participantId :
  same_but_remote a (self (remove a st participantId)).
Proof.
  unfold remove.
  destruct (discoveryProxy a) as [proxy|] eqn:Hp; [ | apply same_but_remote_refl ].
  destruct (proxy_remove proxy st participantId) as [proxy' status'].
  apply (same_but_remote_with_proxy proxy). exact Hp.
Qed.

Lemma annotation_keeps_fields (a : LocalDiscoveryAggregator R) (e : StdDiscoveryEntry) :
  let e' := checkForLocalAvailabilityAndAddInProcessConnection a e in
  getDomain e' = getDomain e /\ getInterfaceName e' = getInterfaceName e
  /\ getParticipantId e' = getParticipantId e /\ getQos e' = getQos e.
Proof.
  cbn zeta. unfold checkForLocalAvailabilityAndAddInProcessConnection.
  destruct (containsRequestCaller _ _); repeat split.
Qed.

(** X7. None of [add], the two lookups and [remove] changes the
    provisioned entries, the directory reference, the settings or the
    ownership flag, and none installs or drops the remote proxy: a call
    changes at most the state of the remote object. *)
Theorem operations_change_only_the_remote (a : LocalDiscoveryAggregator R)
    (joynrInternalStatus : RequestStatus) :
  (forall discoveryEntry,
      same_but_remote a (self (add a joynrInternalStatus discoveryEntry)))
  /\ (forall result0 domain interfaceName discoveryQos,
        same_but_remote a
          (self (lookup a joynrInternalStatus result0 domain interfaceName discoveryQos)))
  /\ (forall result0 participantId,
        same_but_remote a
          (self (lookup_id a joynrInternalStatus result0 participantId)))
  /\ (forall participantId,
        same_but_remote a (self (remove a joynrInternalStatus participantId))).
Proof.
  split; [ | split; [ | split ] ]; intros.
  - apply add_same_but_remote.
  - apply lookup_same_but_remote.
  - apply lookup_id_same_but_remote.
  - apply remove_same_but_remote.
Qed.

(** X8. The constructor provisions exactly the routing and the discovery
    participant id. When the settings give both services the same id, the
    discovery entry replaces the routing entry: the lookup of that id
    answers with the discovery interface. *)
Theorem constructor_provisions_two_ids (directory : IRequestCallerDirectory)
    (settings : SystemServicesSettings) (joynrInternalStatus : RequestStatus)
    (result0 : StdDiscoveryEntry) :
  let a : LocalDiscoveryAggregator R := create directory settings in
  let routingId := getCcRoutingProviderParticipantId settings in
  let discoveryId := getCcDiscoveryProviderParticipantId settings in
  dom (provisionedDiscoveryEntries a) = ({[routingId; discoveryId]} : gset string)
  /\ getInterfaceName (result (lookup_id a joynrInternalStatus result0 discoveryId))
     = IDiscovery_INTERFACE_NAME settings
  /\ getInterfaceName (result (lookup_id a joynrInternalStatus result0 routingId))
     = (if decide (routingId = discoveryId) then IDiscovery_INTERFACE_NAME settings
        else IRouting_INTERFACE_NAME settings).
Proof.
  cbn zeta. split; [ | split ].
  - cbn. rewrite !dom_insert_L, dom_empty_L. set_solver.
  - unfold lookup_id. cbn. rewrite lookup_insert_eq. cbn [result].
    apply annotation_keeps_fields.
  - unfold lookup_id. cbn.
    destruct (decide (getCcRoutingProviderParticipantId settings
                      = getCcDiscoveryProviderParticipantId settings)) as [He|Hne].
    + rewrite He, lookup_insert_eq. cbn [result]. apply annotation_keeps_fields.
    + rewrite lookup_insert_ne by congruence. rewrite lookup_insert_eq. cbn [result].
      apply annotation_keeps_fields.
Qed.

(** X9. The in-process annotation only ever puts one tag in front: the
    connections that were there stay, in order, and domain, interface,
    participant id and QoS are untouched. It is not idempotent: an entry of
    a local participant that passes through it twice carries the tag
    twice. *)
Theorem annotation_only_prepends (a : LocalDiscoveryAggregator R)
    (e : StdDiscoveryEntry) :
  let once := checkForLocalAvailabilityAndAddInProcessConnection a e in
  let twice := checkForLocalAvailabilityAndAddInProcessConnection a once in
  getConnections once
  = (if isLocal a e then [IN_PROCESS] else []) ++ getConnections e
  /\ getConnections twice
     = (if isLocal a e then [IN_PROCESS; IN_PROCESS] else []) ++ getConnections e
  /\ getDomain once = getDomain e
  /\ getInterfaceName once = getInterfaceName e
  /\ getParticipantId once = getParticipantId e
  /\ getQos once = getQos e.
Proof.
  cbn zeta. unfold checkForLocalAvailabilityAndAddInProcessConnection, isLocal.
  destruct (containsRequestCaller (requestCallerDirectory a) (getParticipantId e))
    eqn:Hlocal; cbn; rewrite ?Hlocal; cbn; repeat split.
Qed.

(** X10. A lookup by domain and interface through an installed proxy makes
    exactly one remote call and returns the remote's entries one for one
    and in the remote's order: same number, same participant ids, domains,
    interfaces and QoS. *)
Theorem lookup_keeps_remote_entries (a : LocalDiscoveryAggregator R) (proxy : R)
    (joynrInternalStatus : RequestStatus) (result0 : list StdDiscoveryEntry)
    (domain interfaceName : string) (discoveryQos : StdDiscoveryQos) :
  discoveryProxy a = Some proxy ->
  let c := lookup a joynrInternalStatus result0 domain interfaceName discoveryQos in
  let remote :=
    proxy_lookup proxy joynrInternalStatus result0 domain interfaceName discoveryQos in
  forwarded c = [RemoteLookup domain interfaceName discoveryQos]
  /\ status c = remote.1.2
  /\ length (result c) = length remote.2
  /\ map getParticipantId (result c) = map getParticipantId remote.2
  /\ map getDomain (result c) = map getDomain remote.2
  /\ map getInterfaceName (result c) = map getInterfaceName remote.2
  /\ map getQos (result c) = map getQos remote.2.
Proof.
  intros Hp. cbn zeta. unfold lookup. rewrite Hp.
  destruct (proxy_lookup proxy joynrInternalStatus result0 domain interfaceName
              discoveryQos) as [[proxy' status'] result'].
  cbn. split; [ reflexivity | ]. split; [ reflexivity | ].
  split; [ apply length_map | ].
  rewrite !map_map.
  repeat split; apply map_ext; intros e;
    unfold checkForLocalAvailabilityAndAddInProcessConnection;
    destruct (containsRequestCaller _ _); reflexivity.
Qed.


(** X12. On every aggregator that can come about, the destructor deletes
    exactly the installed remote proxy, and nothing when none was
    installed: the ownership flag is set if and only if a proxy is there. *)
Theorem destructor_deletes_installed_proxy (a : LocalDiscoveryAggregator R) :
  reachable a ->
  destructor a = discoveryProxy a
  /\ hasOwnershipOfDiscoveryProxy a = negb (is_nullptr (discoveryProxy a)).
Proof.
  assert (forall a a' : LocalDiscoveryAggregator R,
             same_but_remote a a' ->
             hasOwnershipOfDiscoveryProxy a = negb (is_nullptr (discoveryProxy a)) ->
             hasOwnershipOfDiscoveryProxy a' = negb (is_nullptr (discoveryProxy a')))
    as Hkeep.
  { intros a1 a2 (_ & _ & _ & Hown & Hnull) Hinv. rewrite Hown, Hnull. exact Hinv. }
  intros Hreach.
  assert (hasOwnershipOfDiscoveryProxy a = negb (is_nullptr (discoveryProxy a))) as Hinv.
  { induction Hreach as [ directory settings | proxy a Hreach IH | a st e Hreach IH
                        | a st r0 d i q Hreach IH | a st r0 p Hreach IH
                        | a st p Hreach IH ].
    - reflexivity.
    - reflexivity.
    - apply (Hkeep a); [ apply add_same_but_remote | exact IH ].
    - apply (Hkeep a); [ apply lookup_same_but_remote | exact IH ].
    - apply (Hkeep a); [ apply lookup_id_same_but_remote | exact IH ].
    - apply (Hkeep a); [ apply remove_same_but_remote | exact IH ]. }
  split; [ | exact Hinv ].
  unfold destructor. rewrite Hinv. destruct (discoveryProxy a); reflexivity.
Qed.

End AggregatorMore.

Section AggregatorCompose.
Import LocalDiscoveryAggregator.
Context {R : Type} `{IDiscoverySync R}.

(** X13. [add] followed by a lookup by domain goes to the remote proxy both
    times and caches nothing: whenever the remote directory, after taking
    the entry, lists it for that domain and interface, the aggregator's
    lookup returns it, annotated. *)
Theorem add_then_lookup_returns_entry (a : LocalDiscoveryAggregator R) (proxy : R)
    (status1 status2 : RequestStatus) (discoveryEntry : StdDiscoveryEntry)
    (result0 : list StdDiscoveryEntry) (domain interfaceName : string)
    (discoveryQos : StdDiscoveryQos) :
  discoveryProxy a = Some proxy ->
  let added := add a status1 discoveryEntry in
  let found := lookup (self added) status2 result0 domain interfaceName discoveryQos in
  let remote := (proxy_add proxy status1 discoveryEntry).1 in
  In discoveryEntry
    (proxy_lookup remote status2 result0 domain interfaceName discoveryQos).2 ->
  forwarded added ++ forwarded found
  = [RemoteAdd discoveryEntry; RemoteLookup domain interfaceName discoveryQos]
  /\ In (checkForLocalAvailabilityAndAddInProcessConnection a discoveryEntry)
       (result found).
Proof.
  intros Hp. cbn zeta. unfold add. rewrite Hp.
  destruct (proxy_add proxy status1 discoveryEntry) as [proxy1 st1]. cbn.
  destruct (proxy_lookup proxy1 status2 result0 domain interfaceName discoveryQos)
    as [[proxy2 st2] result2]. cbn.
  intros Hin. split; [ reflexivity | ].
  apply in_map_iff. exists discoveryEntry. split; [ reflexivity | exact Hin ].
Qed.

(** X14. [remove] followed by a lookup by domain: when the remote
    directory no longer lists the participant, neither does the
    aggregator; the annotation never brings an entry back or changes whose
    entry it is. *)
Theorem remove_then_lookup_omits_entry (a : LocalDiscoveryAggregator R) (proxy : R)
    (status1 status2 : RequestStatus) (participantId : string)
    (result0 : list StdDiscoveryEntry) (domain interfaceName : string)
    (discoveryQos : StdDiscoveryQos) :
  discoveryProxy a = Some proxy ->
  let removed := remove a status1 participantId in
  let found := lookup (self removed) status2 result0 domain interfaceName discoveryQos in
  let remote := (proxy_remove proxy status1 participantId).1 in
  (forall e,
      In e (proxy_lookup remote status2 result0 domain interfaceName discoveryQos).2 ->
      getParticipantId e <> participantId) ->
  forwarded removed ++ forwarded found
  = [RemoteRemove participantId; RemoteLookup domain interfaceName discoveryQos]
  /\ forall e, In e (result found) -> getParticipantId e <> participantId.
Proof.
  intros Hp. cbn zeta. unfold remove. rewrite Hp.
  destruct (proxy_remove proxy status1 participantId) as [proxy1 st1]. cbn.
  destruct (proxy_lookup proxy1 status2 result0 domain interfaceName discoveryQos)
    as [[proxy2 st2] result2]. cbn.
  intros Hgone. split; [ reflexivity | ].
  intros e He. apply in_map_iff in He. destruct He as (e0 & <- & He0).
  unfold checkForLocalAvailabilityAndAddInProcessConnection.
  destruct (containsRequestCaller _ _); cbn; auto.
Qed.

End AggregatorCompose.

Section AggregatorMoreExamples.
Import LocalDiscoveryAggregator.

Lemma lookup_keeps_remote_entries_witness :
  map getParticipantId
    (result (lookup ccAggregatorWithProxy freshStatus []
               "SystemServicesDiscoveryTest.Domain.A"
               "SystemServicesDiscoveryTest.InterfaceName.A" localOnly))
  = ["SystemServicesDiscoveryTest.ParticipantID.A"].
Proof.
  destruct (lookup_keeps_remote_entries ccAggregatorWithProxy [entryA] freshStatus []
              "SystemServicesDiscoveryTest.Domain.A"
              "SystemServicesDiscoveryTest.InterfaceName.A" localOnly eq_refl)
    as (_ & _ & _ & Hids & _).
  exact Hids.
Defined.


Lemma destructor_deletes_installed_proxy_witness :
  destructor ccAggregatorWithProxy = Some [entryA]
  /\ destructor ccAggregator = None.
Proof.
  split.
  - apply (destructor_deletes_installed_proxy ccAggregatorWithProxy).
    apply reach_setDiscoveryProxy. apply reach_create.
  - apply (destructor_deletes_installed_proxy ccAggregator). apply reach_create.
Defined.

(** The add-then-lookup and the remove-then-lookup scenario against the
    directory held in memory. *)
Lemma add_then_lookup_returns_entry_witness :
  In entryA
    (result (lookup (self (add (setDiscoveryProxy [] ccAggregator) freshStatus entryA))
               freshStatus [] "SystemServicesDiscoveryTest.Domain.A"
               "SystemServicesDiscoveryTest.InterfaceName.A" localOnly)).
Proof.
  apply (add_then_lookup_returns_entry (setDiscoveryProxy [] ccAggregator) []
           freshStatus freshStatus entryA [] "SystemServicesDiscoveryTest.Domain.A"
           "SystemServicesDiscoveryTest.InterfaceName.A" localOnly eq_refl).
  vm_compute. auto.
Defined.

Lemma remove_then_lookup_omits_entry_witness :
  Forall (fun e => getParticipantId e <> "SystemServicesDiscoveryTest.ParticipantID.A")
    (result (lookup
               (self (remove ccAggregatorWithProxy freshStatus
                        "SystemServicesDiscoveryTest.ParticipantID.A"))
               freshStatus [] "SystemServicesDiscoveryTest.Domain.A"
               "SystemServicesDiscoveryTest.InterfaceName.A" localOnly)).
Proof.
  apply List.Forall_forall.
  apply (remove_then_lookup_omits_entry ccAggregatorWithProxy [entryA] freshStatus
           freshStatus "SystemServicesDiscoveryTest.ParticipantID.A" []
           "SystemServicesDiscoveryTest.Domain.A"
           "SystemServicesDiscoveryTest.InterfaceName.A" localOnly eq_refl).
  vm_compute. intros e [].
Defined.

End AggregatorMoreExamples.

(** ** Proxy builder: what every operation keeps *)
Section Frame.
Import ProxyBuilder.

Variable R : World -> World -> Prop.
Hypothesis R_refl : forall w, R w w.
Hypothesis R_trans : forall w1 w2 w3, R w1 w2 -> R w2 w3 -> R w1 w3.

Lemma preserves_ret {A} (a : A) : preserves R (ret a).
Proof. intros w. apply R_refl. Qed.

Lemma preserves_throw {A} (what : string) : preserves R (@throw A what).
Proof. intros w. apply R_refl. Qed.

Lemma preserves_gets {A} (f : World -> A) : preserves R (gets f).
Proof. intros w. apply R_refl. Qed.

Lemma preserves_modify (f : World -> World) :
  (forall w, R w (f w)) -> preserves R (modify f).
Proof. intros Hf w. apply Hf. Qed.

Lemma preserves_bind {A B} (m : M A) (k : A -> M B) :
  preserves R m -> (forall a, preserves R (k a)) -> preserves R (bind m k).
Proof.
  intros Hm Hk w. unfold bind. specialize (Hm w).
  destruct (m w) as [[a| |what] w1]; cbn in *; [ | exact Hm | exact Hm ].
  eapply R_trans; [ exact Hm | apply Hk ].
Qed.

Lemma preserves_for_each {A} (l : list A) (body : A -> M unit) :
  (forall x, preserves R (body x)) -> preserves R (for_each l body).
Proof.
  intros Hbody. induction l as [|x l IH]; cbn.
  - apply preserves_ret.
  - apply preserves_bind; auto.
Qed.

(** The elementary changes of the world. *)
Hypothesis R_trace : forall w e, R w (set_trace (trace w ++ [e]) w).
Hypothesis R_heap_push :
  forall w x, R w (set_arbitratorHeap (arbitratorHeap w ++ [x]) w).
Hypothesis R_heap_update :
  forall w i x, R w (set_arbitratorHeap (<[i := x]> (arbitratorHeap w)) w).
Hypothesis R_hops_push : forall w x, R w (set_nextHops (nextHops w ++ [x]) w).
Hypothesis R_created : forall w n, R w (set_proxiesCreated n w).
Hypothesis R_runtime : forall w, R w (set_runtime None w).
Hypothesis R_alive : forall w, R w (set_builderAlive false w).
Hypothesis R_terminated : forall w, R w (set_terminated true w).
Hypothesis R_qos :
  forall w q, R w (set_builder (set_messagingQos q (builder w)) w).
Hypothesis R_push :
  forall w a,
    R w (set_builder (set_arbitrators (arbitrators (builder w) ++ [a]) (builder w)) w).

Lemma preserves_emit (e : Event) : preserves R (emit e).
Proof. apply preserves_modify. intros w. apply R_trace. Qed.

Lemma preserves_call_onError onError exception :
  preserves R (call_onError onError exception).
Proof.
  destruct onError; cbn; [ apply preserves_emit | apply preserves_throw ].
Qed.

Lemma preserves_call_onSuccess onSuccess proxy :
  preserves R (call_onSuccess onSuccess proxy).
Proof.
  destruct onSuccess; cbn; [ apply preserves_emit | apply preserves_throw ].
Qed.

Lemma preserves_update_arbitrator arbitrator f :
  preserves R (update_arbitrator arbitrator f).
Proof.
  apply preserves_modify. intros w.
  destruct (arbitratorHeap w !! arbitrator) as [a|].
  - apply R_heap_update.
  - destruct w; apply R_refl.
Qed.

Lemma preserves_stopArbitration arbitrator : preserves R (stopArbitration arbitrator).
Proof.
  apply preserves_bind; [ apply preserves_update_arbitrator | intros _ ].
  apply preserves_emit.
Qed.

Ltac frame_step :=
  lazymatch goal with
  | |- preserves _ (ret _) => apply preserves_ret
  | |- preserves _ (throw _) => apply preserves_throw
  | |- preserves _ (gets _) => apply preserves_gets
  | |- preserves _ (emit _) => apply preserves_emit
  | |- preserves _ (call_onError _ _) => apply preserves_call_onError
  | |- preserves _ (call_onSuccess _ _) => apply preserves_call_onSuccess
  | |- preserves _ (update_arbitrator _ _) => apply preserves_update_arbitrator
  | |- preserves _ (stopArbitration _) => apply preserves_stopArbitration
  | |- preserves _ (bind _ _) => apply preserves_bind; [ | intros ? ]
  | |- preserves _ (for_each _ _) => apply preserves_for_each; intros ?
  | |- preserves _ (modify _) => apply preserves_modify; intros ?
  | |- preserves _ (if ?c then _ else _) => destruct c
  | |- preserves _ (match ?x with _ => _ end) => destruct x
  end.

Ltac frame := repeat (cbv zeta; frame_step).

Lemma preserves_arbitrationSucceeds captures discoverEntry :
  preserves R (arbitrationSucceeds captures discoverEntry).
Proof.
  unfold arbitrationSucceeds, createProxy, handleArbitrationFinished, setToKnown,
    addNextHop.
  frame; first [ apply R_created | apply R_hops_push ].
Qed.

Lemma preserves_deliverSuccess arbitrator discoverEntry :
  preserves R (deliverSuccess arbitrator discoverEntry).
Proof.
  unfold deliverSuccess. frame; apply preserves_arbitrationSucceeds.
Qed.

Lemma preserves_deliverFailure arbitrator exception :
  preserves R (deliverFailure arbitrator exception).
Proof. unfold deliverFailure. frame. Qed.

Lemma preserves_reportNextHopAdded hop : preserves R (reportNextHopAdded hop).
Proof. unfold reportNextHopAdded, onSuccessAddNextHop. frame. Qed.

Lemma preserves_reportNextHopFailed hop exception :
  preserves R (reportNextHopFailed hop exception).
Proof. unfold reportNextHopFailed, onErrorAddNextHop. frame. Qed.

Lemma preserves_buildAsync_body onSuccess onError :
  preserves R (buildAsync_body onSuccess onError).
Proof.
  unfold buildAsync_body, createArbitrator, startArbitration, modify_builder.
  frame; first [ apply R_heap_push | apply R_push ].
Qed.

Lemma preserves_setMessagingQos_body q :
  preserves R (modify_builder (fun b =>
    let b' := set_messagingQos q b in
    if (messagingMaximumTtlMs b' <? getTtl (messagingQos b'))%Z
    then set_messagingQos (mkMessagingQos (messagingMaximumTtlMs b')) b'
    else b')).
Proof.
  unfold modify_builder. apply preserves_modify. intros w. cbn.
  destruct (messagingMaximumTtlMs (builder w) <? getTtl q)%Z.
  - apply (R_qos w (mkMessagingQos (messagingMaximumTtlMs (builder w)))).
  - apply R_qos.
Qed.

Lemma callback_preserves (m : M unit) :
  preserves R m -> forall w, R w (callback m w).
Proof.
  intros Hm w. unfold callback. specialize (Hm w).
  destruct (m w) as [[[]| |what] w1]; cbn in *;
    [ exact Hm | eapply R_trans; [ exact Hm | apply R_trace ] .. ].
Qed.

Lemma noexcept_preserves (m : M unit) :
  preserves R m -> forall w, R w (noexcept m w).
Proof.
  intros Hm w. unfold noexcept. specialize (Hm w).
  destruct (m w) as [[[]| |what] w1]; cbn in *; [ exact Hm | | ];
    (eapply R_trans; [ exact Hm | ];
     eapply R_trans; [ apply R_trace | ]; apply (R_terminated _)).
Qed.

(** Every input but [stop] keeps the relation. *)
Lemma step_preserves_but_stop (w : World) (i : Input) :
  i <> CallStop -> R w (step w i).
Proof.
  intros Hi. unfold step. destruct (terminated w); [ apply R_refl | ].
  destruct i; try congruence.
  - destruct (builderAlive w); [ | apply R_refl ].
    apply noexcept_preserves, preserves_buildAsync_body.
  - destruct (builderAlive w); [ | apply R_refl ].
    apply noexcept_preserves, preserves_setMessagingQos_body.
  - apply R_runtime.
  - apply R_alive.
  - apply callback_preserves, preserves_deliverSuccess.
  - apply callback_preserves, preserves_deliverFailure.
  - apply callback_preserves, preserves_reportNextHopAdded.
  - apply callback_preserves, preserves_reportNextHopFailed.
Qed.

Lemma run_preserves_but_stop (inputs : list Input) :
  Forall (fun i => i <> CallStop) inputs -> forall w, R w (run w inputs).
Proof.
  induction 1 as [|i inputs Hi _ IH]; intros w; cbn.
  - apply R_refl.
  - eapply R_trans; [ apply step_preserves_but_stop; exact Hi | apply IH ].
Qed.

(** [stop] too, when the relation allows what [stop] does to the builder. *)
Hypothesis R_shut :
  forall w, R w (set_builder (set_shuttingDown true (builder w)) w).
Hypothesis R_clear :
  forall w, R w (set_builder (set_arbitrators [] (builder w)) w).

Lemma preserves_stop : preserves R stop.
Proof. unfold stop, modify_builder. frame; first [ apply R_shut | apply R_clear ]. Qed.

Lemma step_preserves (w : World) (i : Input) : R w (step w i).
Proof.
  destruct i; try (apply step_preserves_but_stop; discriminate).
  unfold step. destruct (terminated w); [ apply R_refl | ].
  destruct (builderAlive w); [ | apply R_refl ].
  apply callback_preserves, preserves_stop.
Qed.

Lemma run_preserves (inputs : list Input) : forall w, R w (run w inputs).
Proof.
  induction inputs as [|i inputs IH]; intros w; cbn.
  - apply R_refl.
  - eapply R_trans; [ apply step_preserves | apply IH ].
Qed.

End Frame.

Section BuilderInvariants.
Import ProxyBuilder.

(** X15. The shutting-down state is terminal: no input, in any order, takes
    a builder out of it, and [stop()] on a live builder puts it there. *)
Theorem shuttingDown_is_terminal (inputs : list Input) (w : World) :
  (shuttingDown (builder w) = true ->
   shuttingDown (builder (run w inputs)) = true)
  /\ (terminated w = false -> builderAlive w = true ->
      shuttingDown (builder (run w (CallStop :: inputs))) = true).
Proof.
  assert (forall inputs w, shuttingDown (builder w) = true ->
                           shuttingDown (builder (run w inputs)) = true) as Hrun.
  { intros l w0.
    apply (run_preserves
             (fun w w' => shuttingDown (builder w) = true ->
                          shuttingDown (builder w') = true));
      intros; cbn in *; auto. }
  split; [ apply Hrun | ].
  intros Hterm Halive. cbn [run fold_left]. apply Hrun.
  rewrite step_running by exact Hterm. rewrite Halive.
  apply stop_sets_shuttingDown.
Qed.

Lemma shuttingDown_is_terminal_witness :
  shuttingDown (builder (run sampleWorld
     [CallStop; CallBuildAsync (Some 0) (Some 1); ArbitrationSucceeds 0 providerEntry;
      NextHopAdded 0])) = true.
Proof.
  apply (proj2 (shuttingDown_is_terminal
           [CallBuildAsync (Some 0) (Some 1); ArbitrationSucceeds 0 providerEntry;
            NextHopAdded 0] sampleWorld)); reflexivity.
Defined.

(** X16. Only [stop()] takes arbitrators off the builder's list. Under any
    other inputs the list only grows at its end: an arbitrator that has
    delivered its result, or whose runtime is gone, stays retained. *)
Theorem arbitrators_retained_until_stop (inputs : list Input) (w : World) :
  Forall (fun i => i <> CallStop) inputs ->
  exists more,
    arbitrators (builder (run w inputs)) = arbitrators (builder w) ++ more.
Proof.
  intros Hnostop. revert w.
  apply (run_preserves_but_stop
           (fun w w' => exists more,
                arbitrators (builder w') = arbitrators (builder w) ++ more));
    try exact Hnostop; intros; cbn;
    try (exists []; rewrite app_nil_r; reflexivity).
  - destruct H as [m1 H1]. destruct H0 as [m2 H2].
    exists (m1 ++ m2). rewrite H2, H1, app_assoc. reflexivity.
  - eauto.
Qed.

Lemma arbitrators_retained_until_stop_witness :
  exists more,
    arbitrators (builder (run sampleWorld
       [CallBuildAsync (Some 0) (Some 1); ArbitrationSucceeds 0 providerEntry;
        NextHopAdded 0; DestroyRuntime]))
    = arbitrators (builder sampleWorld) ++ more.
Proof.
  apply (arbitrators_retained_until_stop
           [CallBuildAsync (Some 0) (Some 1); ArbitrationSucceeds 0 providerEntry;
            NextHopAdded 0; DestroyRuntime] sampleWorld).
  repeat constructor; discriminate.
Defined.

(** X17. What the builder was constructed with never changes: interface,
    domain, proxy factory, discovery proxy, dispatcher address, the maximum
    ttl and the two discovery defaults are the same after any inputs. *)
Theorem configuration_is_fixed (inputs : list Input) (w : World) :
  configuration (builder (run w inputs)) = configuration (builder w).
Proof.
  revert w.
  apply (run_preserves
           (fun w w' => configuration (builder w') = configuration (builder w)));
    intros; cbn in *; try reflexivity.
  congruence.
Qed.



End BuilderInvariants.

(** ** Proxy builder: [stop], the guards of the success callback, empty
       callbacks *)
Section BuilderEdges.
Import ProxyBuilder.

Lemma stopped_idempotent (a : Arbitrator) : stopped (stopped a) = stopped a.
Proof. unfold stopped. destruct a as [d i v p q [] s e]; reflexivity. Qed.

Lemma for_each_stopArbitration_heap (l : list nat) :
  forall w, exists heap,
    (forall i, heap !! i
               = if decide (i ∈ l) then stopped <$> arbitratorHeap w !! i
                 else arbitratorHeap w !! i)
    /\ for_each l stopArbitration w
       = (Returns tt,
          set_trace (trace w ++ map EvStopArbitration l) (set_arbitratorHeap heap w)).
Proof.
  induction l as [|x l IH]; intros w.
  - exists (arbitratorHeap w). split.
    + intros i. destruct (decide (i ∈ [])) as [Hin|_]; [ | reflexivity ].
      apply elem_of_nil in Hin. destruct Hin.
    + destruct w; cbn. rewrite app_nil_r. reflexivity.
  - cbn [for_each]. unfold bind at 1. rewrite stopArbitration_spec.
    match goal with
    | |- context [for_each l stopArbitration ?w1] =>
      destruct (IH w1) as (heap & Hheap & ->)
    end.
    exists heap. split.
    + intros i. rewrite Hheap. cbn. clear Hheap IH.
      assert ((match arbitratorHeap w !! x with
               | Some a =>
                 <[x := match arb_state a with
                        | Finished => a
                        | _ => set_arb_state Stopped a
                        end]> (arbitratorHeap w)
               | None => arbitratorHeap w
               end) !! i
              = if decide (i = x) then stopped <$> arbitratorHeap w !! i
                else arbitratorHeap w !! i) as ->.
      { destruct (arbitratorHeap w !! x) as [a|] eqn:Hx.
        - destruct (decide (i = x)) as [->|Hne].
          + rewrite list_lookup_insert_eq by (eapply lookup_lt_Some; exact Hx).
            rewrite Hx. reflexivity.
          + rewrite list_lookup_insert_ne by congruence. reflexivity.
        - destruct (decide (i = x)) as [->|Hne]; [ rewrite Hx | ]; reflexivity. }
      destruct (decide (i ∈ l)) as [Hl|Hl];
        destruct (decide (i = x)) as [->|Hne];
        destruct (decide (_ ∈ x :: l)) as [Hxl|Hxl]; try reflexivity.
      * destruct (arbitratorHeap w !! x); cbn; [ | reflexivity ].
        rewrite stopped_idempotent. reflexivity.
      * exfalso. apply Hxl. apply elem_of_cons. auto.
      * exfalso. apply Hxl. apply elem_of_cons. auto.
      * exfalso. apply Hxl. apply elem_of_cons. auto.
      * exfalso. apply elem_of_cons in Hxl. destruct Hxl; auto.
    + destruct w; cbn. rewrite <- app_assoc. reflexivity.
Qed.

(** X19. [stop()] orders every arbitrator on the list to stop, once and in
    list order, and empties the list: an arbitrator that was retained and
    had not delivered its result is stopped afterwards, one that had
    finished and any arbitrator not on the list is left as it was. No
    caller callback is invoked. *)
Theorem stop_stops_retained_arbitrators (w : World) :
  let w' := callback stop w in
  added w w' = map EvStopArbitration (arbitrators (builder w))
  /\ arbitrators (builder w') = []
  /\ forall arbitrator,
       arbitratorHeap w' !! arbitrator
       = if decide (arbitrator ∈ arbitrators (builder w))
         then stopped <$> arbitratorHeap w !! arbitrator
         else arbitratorHeap w !! arbitrator.
Proof.
  cbn zeta. unfold callback, stop, bind, modify_builder, modify, gets. cbn.
  match goal with
  | |- context [for_each ?l stopArbitration ?w1] =>
    destruct (for_each_stopArbitration_heap l w1) as (heap & Hheap & ->)
  end.
  cbn. split; [ | split ].
  - unfold added. cbn. rewrite drop_app_length. reflexivity.
  - reflexivity.
  - intros arbitrator. rewrite Hheap. reflexivity.
Qed.

(** X20. [stop()] is idempotent: a second call finds no arbitrator to stop
    and changes nothing. *)
Theorem stop_twice_is_stop (w : World) :
  callback stop (callback stop w) = callback stop w.
Proof.
  destruct (stop_spec w) as (heap & _ & ->).
  unfold callback, stop, bind, modify_builder, modify, gets. cbn.
  reflexivity.
Qed.

(** X21. The guards of the success callback. If, when the arbitrator
    reports its entry, the builder is gone or the runtime is gone, the
    caller's [onError] gets "required runtime has been already destroyed";
    if both are there but the entry's participant id is empty, it gets
    "Arbitration was set to successfull by arbitrator but ParticipantId is
    empty". In all three cases no proxy is created and the router is not
    called. *)
Theorem arbitrationSucceeds_guards (w : World) (arbitrator : nat) (a : Arbitrator)
    (onSuccess : std_function) (handler : nat)
    (discoverEntry : DiscoveryEntryWithMetaInfo) :
  terminated w = false ->
  arbitratorHeap w !! arbitrator = Some a -> arb_state a = Running ->
  arb_onSuccess a = Some (mkClosure onSuccess (Some handler)) ->
  builderAlive w = false \/ runtime w = None
  \/ string_empty (getParticipantId discoverEntry) = true ->
  let w' := step w (ArbitrationSucceeds arbitrator discoverEntry) in
  added w w'
  = [EvArbitrationSucceeded arbitrator discoverEntry;
     EvOnError handler
       (mkDiscoveryException
          (if builderAlive w && negb (is_nullptr (runtime w))
           then "Arbitration was set to successfull by arbitrator but ParticipantId is empty"
           else "required runtime has been already destroyed"))]
  /\ proxiesCreated w' = proxiesCreated w
  /\ nextHops w' = nextHops w.
Proof.
  intros Hterm Ha Hstate Hcb Hguard. cbn zeta.
  rewrite step_running by exact Hterm. unfold callback.
  rewrite (deliverSuccess_running w arbitrator a _ discoverEntry Ha Hstate Hcb).
  destruct w as [b alive r heap hops n term tr]. cbn in *.
  unfold arbitrationSucceeds, call_onError, emit, modify, bind, gets. cbn.
  unfold added. cbn.
  destruct alive; cbn.
  - destruct r as [rt|]; cbn.
    + destruct Hguard as [Hg | [Hg | Hg]]; try discriminate.
      rewrite Hg. cbn. rewrite <- app_assoc, drop_app_length. repeat split.
    + rewrite <- app_assoc, drop_app_length. repeat split.
  - rewrite <- app_assoc, drop_app_length. repeat split.
Qed.

Lemma arbitrationSucceeds_guards_witness :
  let w := run sampleWorld [CallBuildAsync (Some 0) (Some 1); DestroyRuntime] in
  added w (step w (ArbitrationSucceeds 0 providerEntry))
  = [EvArbitrationSucceeded 0 providerEntry;
     EvOnError 1 (mkDiscoveryException "required runtime has been already destroyed")].
Proof.
  cbn zeta.
  apply (arbitrationSucceeds_guards
           (run sampleWorld [CallBuildAsync (Some 0) (Some 1); DestroyRuntime]) 0
           (mkArbitrator "io.joynr.system" "system/Discovery" (mkVersion 0 1) 0
              (mkDiscoveryQos 50 10 0 false) Running
              (Some (mkClosure (Some 0) (Some 1))) (Some 1))
           (Some 0) 1 providerEntry); try reflexivity.
  right. left. reflexivity.
Defined.

(** X22. The two router callbacks treat an empty caller callback
    differently. A failure report for a route whose [onError] is empty is
    dropped without a trace beyond the report itself; a success report for
    a route whose [onSuccess] is empty ends in [std::bad_function_call]
    leaving the callback. *)
Theorem empty_callbacks_at_router_report (w : World) (hop : nat) (callbacks : NextHop) :
  terminated w = false ->
  nextHops w !! hop = Some callbacks ->
  (hop_onError callbacks = None ->
   forall exception,
     added w (step w (NextHopFailed hop exception)) = [EvNextHopFailed hop exception])
  /\ (hop_onSuccess callbacks = None ->
      added w (step w (NextHopAdded hop))
      = [EvNextHopAdded hop; EvUncaught "bad_function_call"]).
Proof.
  intros Hterm Hhop. split.
  - intros Hcb exception. rewrite step_running by exact Hterm.
    unfold callback, reportNextHopFailed, onErrorAddNextHop, bind, gets, emit, modify.
    cbn. rewrite Hhop. cbn. rewrite Hcb. cbn.
    unfold added. cbn. rewrite drop_app_length. reflexivity.
  - intros Hcb. rewrite step_running by exact Hterm.
    unfold callback, reportNextHopAdded, onSuccessAddNextHop, call_onSuccess, bind,
      gets, emit, modify, throw.
    cbn. rewrite Hhop. cbn. rewrite Hcb. cbn.
    unfold added. cbn. rewrite <- app_assoc, drop_app_length. reflexivity.
Qed.

Lemma empty_callbacks_at_router_report_witness :
  let w := run sampleWorld
             [CallBuildAsync None None; ArbitrationSucceeds 0 providerEntry] in
  added w (step w (NextHopFailed 0 (mkProviderRuntimeException "no route")))
  = [EvNextHopFailed 0 (mkProviderRuntimeException "no route")]
  /\ added w (step w (NextHopAdded 0))
     = [EvNextHopAdded 0; EvUncaught "bad_function_call"].
Proof.
  cbn zeta.
  destruct (empty_callbacks_at_router_report
              (run sampleWorld
                 [CallBuildAsync None None; ArbitrationSucceeds 0 providerEntry])
              0
              (mkNextHop None
                 (mkProxy "proxy.0" 1 "io.joynr.system" (mkMessagingQos 60000)
                    (Some providerEntry)) None)
              eq_refl eq_refl) as [Hfail Hok].
  split; [ apply Hfail; reflexivity | apply Hok; reflexivity ].
Defined.

(** X23. [buildAsync] is [noexcept]: called with an empty [onError] on a
    builder whose runtime is gone or that is shutting down, the call of the
    empty function ends the process. No arbitrator is created, and nothing
    that comes afterwards has any effect. *)
Theorem buildAsync_empty_onError_terminates (w : World) (onSuccess : std_function)
    (inputs : list Input) :
  terminated w = false -> builderAlive w = true ->
  runtime w = None \/ shuttingDown (builder w) = true ->
  let w' := step w (CallBuildAsync onSuccess None) in
  w' = set_terminated true (set_trace (trace w ++ [EvTerminate]) w)
  /\ run w' inputs = w'.
Proof.
  intros Hterm Halive Hdead. cbn zeta.
  assert (step w (CallBuildAsync onSuccess None)
          = set_terminated true (set_trace (trace w ++ [EvTerminate]) w)) as ->.
  { rewrite step_running by exact Hterm. rewrite Halive.
    unfold buildAsync, noexcept, buildAsync_body, bind, gets. cbn.
    assert (is_nullptr (runtime w) || shuttingDown (builder w) = true) as ->.
    { destruct Hdead as [-> | ->]; [ reflexivity | apply orb_true_r ]. }
    reflexivity. }
  split; [ reflexivity | ].
  induction inputs as [|i inputs IH]; [ reflexivity | ].
  cbn [run fold_left]. rewrite step_terminated by reflexivity. exact IH.
Qed.

Lemma buildAsync_empty_onError_terminates_witness :
  let w' := step orphanWorld (CallBuildAsync (Some 0) None) in
  arbitratorHeap w' = [] /\ trace w' = [EvTerminate]
  /\ run w' [CallBuildAsync (Some 0) (Some 1); CallStop] = w'.
Proof.
  cbn zeta.
  destruct (buildAsync_empty_onError_terminates orphanWorld (Some 0)
              [CallBuildAsync (Some 0) (Some 1); CallStop] eq_refl eq_refl
              (or_introl eq_refl)) as [Hw Hrun].
  split; [ rewrite Hw; reflexivity | ].
  split; [ rewrite Hw; reflexivity | exact Hrun ].
Defined.

End BuilderEdges.

(** ** Proxy builder: several attempts, failure, and the QoS setters *)
Section BuilderAttempts.
Import ProxyBuilder.

(** The arbitrator the k-th of several [buildAsync] calls creates. *)
Lemma buildAsync_times_live (n : nat) (w : World) (rt : Runtime) :
  runtime w = Some rt -> shuttingDown (builder w) = false ->
  let b := builder w in
  let w' := buildAsync_times n w in
  let arbitratorOf k :=
    mkArbitrator (domain b) (INTERFACE_NAME (T b))
      (mkVersion (MAJOR_VERSION (T b)) (MINOR_VERSION (T b))) (discoveryProxy b)
      (discoveryQos b) Running (Some (mkClosure (Some (2 * k)) (Some (2 * k + 1))))
      (Some (2 * k + 1)) in
  w' = mkWorld
         (set_arbitrators (arbitrators b ++ seq (length (arbitratorHeap w)) n) b)
         (builderAlive w) (runtime w)
         (arbitratorHeap w ++ map arbitratorOf (seq 0 n))
         (nextHops w) (proxiesCreated w) (terminated w)
         (trace w ++
            flat_map (fun k =>
              [EvCreateArbitrator (length (arbitratorHeap w) + k) (domain b)
                 (INTERFACE_NAME (T b))
                 (mkVersion (MAJOR_VERSION (T b)) (MINOR_VERSION (T b)))
                 (discoveryProxy b) (discoveryQos b);
               EvStartArbitration (length (arbitratorHeap w) + k)]) (seq 0 n)).
Proof.
  intros Hrt Hsd. cbn zeta. induction n as [|n IH].
  - destruct w as [b alive r heap hops c term tr]. destruct b. cbn.
    rewrite !app_nil_r. reflexivity.
  - cbn [buildAsync_times]. rewrite IH. clear IH.
    rewrite !seq_S, map_app, flat_map_app.
    erewrite buildAsync_live; [ | cbn; exact Hrt | cbn; exact Hsd ].
    unfold arbitrating. cbn -[Nat.mul Nat.add].
    rewrite ?Nat.add_0_l, !length_app, length_map, length_seq, <- !app_assoc.
    reflexivity.
Qed.

(** X24. Several [buildAsync] calls on a live builder create independent
    arbitrators: the n-th call creates exactly one, started with that
    call's own callbacks and the builder's discovery QoS, and appends it to
    the list; earlier arbitrators are untouched and no caller callback is
    invoked by the calls themselves. *)
Theorem buildAsync_creates_independent_arbitrators (n : nat) (w : World)
    (rt : Runtime) :
  runtime w = Some rt -> shuttingDown (builder w) = false ->
  let w' := buildAsync_times n w in
  arbitrators (builder w')
  = arbitrators (builder w) ++ seq (length (arbitratorHeap w)) n
  /\ (forall i a, arbitratorHeap w !! i = Some a -> arbitratorHeap w' !! i = Some a)
  /\ (forall k, k < n ->
        exists a,
          arbitratorHeap w' !! (length (arbitratorHeap w) + k) = Some a
          /\ arb_state a = Running
          /\ arb_onSuccess a = Some (mkClosure (Some (2 * k)) (Some (2 * k + 1)))
          /\ arb_onError a = Some (2 * k + 1)
          /\ arb_discoveryQos a = discoveryQos (builder w))
  /\ existsb is_callerCallback (added w w') = false.
Proof.
  intros Hrt Hsd. cbn zeta.
  rewrite (buildAsync_times_live n w rt Hrt Hsd). cbn.
  split; [ reflexivity | ]. split; [ | split ].
  - intros i a Hi. apply lookup_app_l_Some. exact Hi.
  - intros k Hk. eexists. split.
    + rewrite lookup_app_r by lia.
      replace (length (arbitratorHeap w) + k - length (arbitratorHeap w)) with k by lia.
      rewrite list_lookup_fmap, lookup_seq_lt by exact Hk. reflexivity.
    + repeat split.
  - unfold added. cbn. rewrite drop_app_length.
    induction (seq 0 n) as [|k l IH]; [ reflexivity | exact IH ].
Qed.

Lemma buildAsync_creates_independent_arbitrators_witness :
  arbitrators (builder (buildAsync_times 3 sampleWorld)) = [0; 1; 2].
Proof.
  apply (buildAsync_creates_independent_arbitrators 3 sampleWorld 1); reflexivity.
Defined.

(** An arbitrator that has not delivered yet reporting failure calls the
    error callback it was started with. *)
Lemma deliverFailure_pending (w : World) (arbitrator : nat) (a : Arbitrator)
    (exception : DiscoveryException) :
  arbitratorHeap w !! arbitrator = Some a ->
  arb_state a = Running \/ arb_state a = Stopped ->
  deliverFailure arbitrator exception w
  = call_onError (arb_onError a) exception
      (set_trace (trace w ++ [EvArbitrationFailed arbitrator exception])
         (set_arbitratorHeap (<[arbitrator := set_arb_state Finished a]> (arbitratorHeap w))
            w)).
Proof.
  intros Ha Hstate.
  unfold deliverFailure, bind at 1, gets. cbn. rewrite Ha.
  assert (forall k1 k2 : M unit,
             match arb_state a with
             | Running | Stopped => k1
             | _ => k2
             end = k1) as ->.
  { intros k1 k2. destruct Hstate as [-> | ->]; reflexivity. }
  unfold update_arbitrator, emit, modify, bind. cbn. rewrite Ha. reflexivity.
Qed.

(** X25. An arbitration that fails hands the arbitrator's exception to the
    caller's [onError] as it is: the callback was passed on to the
    arbitrator unchanged. No proxy is created and the router is not
    called. *)
Theorem arbitration_failure_reaches_caller_unchanged (w : World)
    (onSuccess : std_function) (handler : nat) (rt : Runtime)
    (exception : DiscoveryException) :
  terminated w = false -> builderAlive w = true ->
  runtime w = Some rt -> shuttingDown (builder w) = false ->
  let started := step w (CallBuildAsync onSuccess (Some handler)) in
  let arbitrator := length (arbitratorHeap w) in
  let failed := step started (ArbitrationFails arbitrator exception) in
  added started failed
  = [EvArbitrationFailed arbitrator exception; EvOnError handler exception]
  /\ proxiesCreated failed = proxiesCreated w
  /\ nextHops failed = nextHops w.
Proof.
  intros Hterm Halive Hrt Hsd. cbn zeta.
  rewrite (step_running w) by exact Hterm. rewrite Halive.
  rewrite (buildAsync_live _ _ _ rt Hrt Hsd).
  rewrite step_running by exact Hterm.
  unfold arbitrating, callback.
  erewrite deliverFailure_pending; [ | cbn; apply lookup_fresh | left; reflexivity ].
  unfold added. cbn. split; [ | split; reflexivity ].
  after_prefix. reflexivity.
Qed.

Lemma arbitration_failure_reaches_caller_unchanged_witness :
  let started := step sampleWorld (CallBuildAsync (Some 0) (Some 1)) in
  added started
    (step started (ArbitrationFails 0 (mkDiscoveryException "no provider found")))
  = [EvArbitrationFailed 0 (mkDiscoveryException "no provider found");
     EvOnError 1 (mkDiscoveryException "no provider found")].
Proof.
  cbn zeta.
  apply (arbitration_failure_reaches_caller_unchanged sampleWorld (Some 0) 1 1
           (mkDiscoveryException "no provider found")); reflexivity.
Defined.

(** X26. On a builder that is shutting down one [buildAsync] can invoke the
    caller's [onError] twice: at once, with "required runtime has been
    already destroyed", and again when the arbitration it started all the
    same fails. *)
Theorem buildAsync_after_stop_reports_twice (w : World) (onSuccess : std_function)
    (handler : nat) (exception : DiscoveryException) :
  terminated w = false -> builderAlive w = true ->
  let stopped := step w CallStop in
  let arbitrator := length (arbitratorHeap w) in
  let final :=
    run stopped [CallBuildAsync onSuccess (Some handler);
                 ArbitrationFails arbitrator exception] in
  let b := builder w in
  added stopped final
  = [EvOnError handler (mkDiscoveryException runtimeAlreadyDestroyed);
     EvCreateArbitrator arbitrator (domain b) (INTERFACE_NAME (T b))
       (mkVersion (MAJOR_VERSION (T b)) (MINOR_VERSION (T b))) (discoveryProxy b)
       (discoveryQos b);
     EvStartArbitration arbitrator;
     EvArbitrationFailed arbitrator exception;
     EvOnError handler exception]
  /\ count_onError handler (added stopped final) = 2.
Proof.
  intros Hterm Halive. cbn zeta.
  assert (added (step w CallStop)
            (run (step w CallStop)
               [CallBuildAsync onSuccess (Some handler);
                ArbitrationFails (length (arbitratorHeap w)) exception])
          = [EvOnError handler (mkDiscoveryException runtimeAlreadyDestroyed);
             EvCreateArbitrator (length (arbitratorHeap w)) (domain (builder w))
               (INTERFACE_NAME (T (builder w)))
               (mkVersion (MAJOR_VERSION (T (builder w))) (MINOR_VERSION (T (builder w))))
               (discoveryProxy (builder w)) (discoveryQos (builder w));
             EvStartArbitration (length (arbitratorHeap w));
             EvArbitrationFailed (length (arbitratorHeap w)) exception;
             EvOnError handler exception]) as ->.
  { rewrite (step_running w) by exact Hterm. rewrite Halive.
    destruct (stop_spec w) as (heap & Hlen & ->). rewrite <- Hlen. clear Hlen.
    destruct w as [b alive r heap0 hops n term tr]. cbn in *. subst alive term.
    cbn [run fold_left].
    rewrite (step_running _ (CallBuildAsync _ _)) by reflexivity.
    cbn [builderAlive].
    rewrite buildAsync_dead by (right; reflexivity).
    rewrite step_running by reflexivity.
    unfold arbitrating, callback.
    erewrite deliverFailure_pending; [ | cbn; apply lookup_fresh | left; reflexivity ].
    unfold added. cbn. after_prefix. reflexivity. }
  split; [ reflexivity | ].
  unfold count_onError. cbn. rewrite !Nat.eqb_refl. reflexivity.
Qed.

Lemma buildAsync_after_stop_reports_twice_witness :
  count_onError 1
    (added (step sampleWorld CallStop)
       (run (step sampleWorld CallStop)
          [CallBuildAsync (Some 0) (Some 1);
           ArbitrationFails 0 (mkDiscoveryException "no provider found")])) = 2.
Proof.
  apply (buildAsync_after_stop_reports_twice sampleWorld (Some 0) 1
           (mkDiscoveryException "no provider found")); reflexivity.
Defined.

End BuilderAttempts.

Section BuilderSetters.
Import ProxyBuilder.

Lemma setMessagingQos_spec (q : MessagingQos) (w : World) :
  setMessagingQos q w
  = set_builder
      (set_messagingQos
         (mkMessagingQos (Z.min (getTtl q) (messagingMaximumTtlMs (builder w))))
         (builder w)) w.
Proof.
  unfold setMessagingQos, noexcept, modify_builder, modify. cbn.
  destruct (Z.ltb_spec (messagingMaximumTtlMs (builder w)) (getTtl q)) as [Hlt|Hge].
  - rewrite Z.min_r by lia. reflexivity.
  - rewrite Z.min_l by lia. destruct q. reflexivity.
Qed.

(** X27. [setMessagingQos] stores the QoS with its ttl cut down to the
    maximum ttl of the messaging settings, and invokes nothing. The success
    callback reads the QoS when the arbitrator reports, not when
    [buildAsync] was called: a QoS set while the arbitration is running is
    the one the proxy is created with. *)
Theorem messagingQos_is_clamped_and_read_late (w : World) (q : MessagingQos)
    (arbitrator : nat) (a : Arbitrator) (captures : Closure) (rt : Runtime)
    (discoverEntry : DiscoveryEntryWithMetaInfo) :
  terminated w = false -> builderAlive w = true -> runtime w = Some rt ->
  arbitratorHeap w !! arbitrator = Some a ->
  arb_state a = Running -> arb_onSuccess a = Some captures ->
  string_empty (getParticipantId discoverEntry) = false ->
  let configured := step w (CallSetMessagingQos q) in
  let clamped :=
    mkMessagingQos (Z.min (getTtl q) (messagingMaximumTtlMs (builder w))) in
  messagingQos (builder configured) = clamped
  /\ (getTtl (messagingQos (builder configured)) <= messagingMaximumTtlMs (builder w))%Z
  /\ trace configured = trace w
  /\ In (EvCreateProxy rt (domain (builder w)) clamped)
       (added configured
          (step configured (ArbitrationSucceeds arbitrator discoverEntry))).
Proof.
  intros Hterm Halive Hrt Ha Hstate Hcb Hpid. cbn zeta.
  rewrite (step_running w) by exact Hterm. rewrite Halive, setMessagingQos_spec.
  split; [ reflexivity | ]. split; [ cbn; lia | ]. split; [ reflexivity | ].
  rewrite step_running by exact Hterm. unfold callback.
  erewrite deliverSuccess_running; [ | exact Ha | exact Hstate | exact Hcb ].
  erewrite arbitrationSucceeds_live; [ | exact Halive | exact Hrt | exact Hpid ].
  unfold added. cbn. after_prefix. auto.
Qed.

Lemma messagingQos_is_clamped_and_read_late_witness :
  let w := step sampleWorld (CallBuildAsync (Some 0) (Some 1)) in
  let configured := step w (CallSetMessagingQos (mkMessagingQos 9000000000)) in
  In (EvCreateProxy 1 "io.joynr.system" (mkMessagingQos 2592000000))
    (added configured (step configured (ArbitrationSucceeds 0 providerEntry))).
Proof.
  cbn zeta.
  apply (messagingQos_is_clamped_and_read_late
           (step sampleWorld (CallBuildAsync (Some 0) (Some 1)))
           (mkMessagingQos 9000000000) 0
           (mkArbitrator "io.joynr.system" "system/Discovery" (mkVersion 0 1) 0
              (mkDiscoveryQos 50 10 0 false) Running
              (Some (mkClosure (Some 0) (Some 1))) (Some 1))
           (mkClosure (Some 0) (Some 1)) 1 providerEntry); reflexivity.
Defined.

(** X28. [setDiscoveryQos] stores the QoS with a discovery timeout or retry
    interval of [NO_VALUE] replaced by the builder's default and everything
    else as given; when the defaults are values, no [NO_VALUE] is left. It
    touches no arbitrator that already exists; the next [buildAsync] hands
    the stored QoS to the arbitrator it creates. *)
Theorem setDiscoveryQos_fills_in_defaults (NO_VALUE : Z) (q : DiscoveryQos)
    (w : World) :
  let w' := setDiscoveryQos NO_VALUE q w in
  let stored := discoveryQos (builder w') in
  getDiscoveryTimeoutMs stored
  = (if (getDiscoveryTimeoutMs q =? NO_VALUE)%Z
     then discoveryDefaultTimeoutMs (builder w) else getDiscoveryTimeoutMs q)
  /\ getRetryIntervalMs stored
     = (if (getRetryIntervalMs q =? NO_VALUE)%Z
        then discoveryDefaultRetryIntervalMs (builder w) else getRetryIntervalMs q)
  /\ getCacheMaxAgeMs stored = getCacheMaxAgeMs q
  /\ getProviderMustSupportOnChange stored = getProviderMustSupportOnChange q
  /\ (discoveryDefaultTimeoutMs (builder w) <> NO_VALUE ->
      discoveryDefaultRetryIntervalMs (builder w) <> NO_VALUE ->
      getDiscoveryTimeoutMs stored <> NO_VALUE /\ getRetryIntervalMs stored <> NO_VALUE)
  /\ arbitratorHeap w' = arbitratorHeap w
  /\ arbitrators (builder w') = arbitrators (builder w)
  /\ trace w' = trace w
  /\ (forall rt onSuccess onError,
        runtime w = Some rt -> shuttingDown (builder w) = false ->
        exists a,
          arbitratorHeap (buildAsync onSuccess onError w') !! length (arbitratorHeap w)
          = Some a
          /\ arb_discoveryQos a = stored).
Proof.
  cbn zeta. unfold setDiscoveryQos, noexcept, modify_builder, modify. cbn.
  destruct (Z.eqb_spec (getDiscoveryTimeoutMs q) NO_VALUE) as [Ht|Ht];
    destruct (Z.eqb_spec (getRetryIntervalMs q) NO_VALUE) as [Hr|Hr]; cbn;
    rewrite ?Ht, ?Hr; cbn;
    repeat match goal with
           | |- context [(?x =? ?y)%Z] =>
             destruct (Z.eqb_spec x y); try congruence; cbn
           end;
    (repeat (split; [ first [ reflexivity | intros; split; congruence ] | ]));
    intros rt onSuccess onError Hrt Hsd;
    (erewrite buildAsync_live; [ | cbn; exact Hrt | cbn; exact Hsd ]);
    unfold arbitrating; cbn; rewrite lookup_fresh; eexists; split; reflexivity.
Qed.

Lemma setDiscoveryQos_fills_in_defaults_witness :
  let w' := setDiscoveryQos (-1) (mkDiscoveryQos (-1) 300 1000 true) sampleWorld in
  getDiscoveryTimeoutMs (discoveryQos (builder w')) <> (-1)%Z
  /\ getRetryIntervalMs (discoveryQos (builder w')) <> (-1)%Z.
Proof.
  cbn zeta.
  apply (setDiscoveryQos_fills_in_defaults (-1) (mkDiscoveryQos (-1) 300 1000 true)
           sampleWorld); cbn; discriminate.
Defined.

(** X29. [build()] guards only against a runtime that is gone: then it
    throws "required runtime has been already destroyed" and does nothing
    else. On a builder that is shutting down in a live runtime it does not
    throw at entry: the future gets the error through [onError], and an
    arbitrator is created and started all the same. *)
Theorem build_guards_only_the_runtime (proxyFuture : nat) (w : World) :
  (runtime w = None ->
   build_enter proxyFuture w = (Throws "required runtime has been already destroyed", w))
  /\ (forall rt, runtime w = Some rt -> shuttingDown (builder w) = true ->
      let entered := build_enter proxyFuture w in
      let b := builder w in
      let arbitrator := length (arbitratorHeap w) in
      entered.1 = Returns tt
      /\ added w entered.2
         = [EvOnError proxyFuture (mkDiscoveryException runtimeAlreadyDestroyed);
            EvCreateArbitrator arbitrator (domain b) (INTERFACE_NAME (T b))
              (mkVersion (MAJOR_VERSION (T b)) (MINOR_VERSION (T b)))
              (discoveryProxy b) (discoveryQos b);
            EvStartArbitration arbitrator]
      /\ arbitrators (builder entered.2) = arbitrators b ++ [arbitrator]).
Proof.
  split.
  - intros Hrt. unfold build_enter, bind, gets, throw. cbn. rewrite Hrt. reflexivity.
  - intros rt Hrt Hsd. cbn zeta.
    unfold build_enter, bind, gets, modify. cbn. rewrite Hrt. cbn.
    rewrite buildAsync_dead by (right; exact Hsd).
    unfold arbitrating, added. cbn.
    split; [ reflexivity | ]. split; [ | reflexivity ].
    after_prefix. reflexivity.
Qed.

Lemma build_guards_only_the_runtime_witness :
  build_enter 7 orphanWorld
  = (Throws "required runtime has been already destroyed", orphanWorld)
  /\ arbitrators (builder (build_enter 7 (callback stop sampleWorld)).2) = [0].
Proof.
  split.
  - apply (proj1 (build_guards_only_the_runtime 7 orphanWorld)). reflexivity.
  - apply (proj2 (build_guards_only_the_runtime 7 (callback stop sampleWorld)) 1);
      reflexivity.
Defined.

End BuilderSetters.

(** ** Proxy builder: when the proxy factory is reached *)
Section FactoryCalls.
Import ProxyBuilder.

Lemma no_createProxy_app (l1 l2 : list Event) :
  no_createProxy l1 = true -> no_createProxy l2 = true ->
  no_createProxy (l1 ++ l2) = true.
Proof.
  intros H1 H2. unfold no_createProxy in *. rewrite forallb_app, H1, H2. reflexivity.
Qed.

Lemma noproxy_ret {A} (a : A) : creates_no_proxy (ret a).
Proof. intros w. exists []. cbn. rewrite app_nil_r. auto. Qed.

Lemma noproxy_throw {A} (what : string) : creates_no_proxy (@throw A what).
Proof. intros w. exists []. cbn. rewrite app_nil_r. auto. Qed.

Lemma noproxy_gets {A} (f : World -> A) : creates_no_proxy (gets f).
Proof. intros w. exists []. cbn. rewrite app_nil_r. auto. Qed.

Lemma noproxy_modify (f : World -> World) :
  (forall w, trace (f w) = trace w) -> creates_no_proxy (modify f).
Proof. intros Hf w. exists []. cbn. rewrite Hf, app_nil_r. auto. Qed.

Lemma noproxy_emit (e : Event) : is_createProxy e = false -> creates_no_proxy (emit e).
Proof. intros He w. exists [e]. cbn. rewrite He. auto. Qed.

Lemma noproxy_bind {A B} (m : M A) (k : A -> M B) :
  creates_no_proxy m -> (forall a, creates_no_proxy (k a)) ->
  creates_no_proxy (bind m k).
Proof.
  intros Hm Hk w. unfold bind.
  destruct (Hm w) as (e1 & H1 & Q1).
  destruct (m w) as [[a| |what] w1]; cbn in *; [ | eauto | eauto ].
  destruct (Hk a w1) as (e2 & H2 & Q2).
  exists (e1 ++ e2). rewrite H2, H1, app_assoc. auto using no_createProxy_app.
Qed.

Lemma noproxy_for_each {A} (l : list A) (body : A -> M unit) :
  (forall x, creates_no_proxy (body x)) -> creates_no_proxy (for_each l body).
Proof.
  intros Hbody. induction l as [|x l IH]; cbn.
  - apply noproxy_ret.
  - apply noproxy_bind; auto.
Qed.

Ltac noproxy_step :=
  lazymatch goal with
  | |- creates_no_proxy (ret _) => apply noproxy_ret
  | |- creates_no_proxy (throw _) => apply noproxy_throw
  | |- creates_no_proxy (gets _) => apply noproxy_gets
  | |- creates_no_proxy (emit _) => apply noproxy_emit; reflexivity
  | |- creates_no_proxy (bind _ _) => apply noproxy_bind; [ | intros ? ]
  | |- creates_no_proxy (for_each _ _) => apply noproxy_for_each; intros ?
  | |- creates_no_proxy (modify _) => apply noproxy_modify; intros ?; reflexivity
  | |- creates_no_proxy (if ?c then _ else _) => destruct c
  | |- creates_no_proxy (match ?x with _ => _ end) => destruct x
  end.

Ltac noproxy := repeat (cbv zeta; noproxy_step).

Lemma noproxy_stop : creates_no_proxy stop.
Proof.
  unfold stop, stopArbitration, update_arbitrator, modify_builder. noproxy.
Qed.

Lemma noproxy_buildAsync_body onSuccess onError :
  creates_no_proxy (buildAsync_body onSuccess onError).
Proof.
  unfold buildAsync_body, createArbitrator, startArbitration, update_arbitrator,
    modify_builder, call_onError.
  noproxy.
Qed.

Lemma noproxy_deliverFailure arbitrator exception :
  creates_no_proxy (deliverFailure arbitrator exception).
Proof. unfold deliverFailure, update_arbitrator, call_onError. noproxy. Qed.

Lemma noproxy_reportNextHopAdded hop : creates_no_proxy (reportNextHopAdded hop).
Proof. unfold reportNextHopAdded, onSuccessAddNextHop, call_onSuccess. noproxy. Qed.

Lemma noproxy_reportNextHopFailed hop exception :
  creates_no_proxy (reportNextHopFailed hop exception).
Proof. unfold reportNextHopFailed, onErrorAddNextHop, call_onError. noproxy. Qed.

Lemma noproxy_modify_builder f : creates_no_proxy (modify_builder f).
Proof. unfold modify_builder. noproxy. Qed.

Lemma noproxy_callback (m : M unit) (w : World) :
  creates_no_proxy m ->
  exists events,
    trace (callback m w) = trace w ++ events /\ no_createProxy events = true.
Proof.
  intros Hm. unfold callback. destruct (Hm w) as (events & Ht & Hq).
  destruct (m w) as [[[]| |what] w1]; cbn in *; [ eauto | | ];
    eexists (events ++ [_]); rewrite Ht, app_assoc;
    (split; [ reflexivity | apply no_createProxy_app; [ exact Hq | reflexivity ] ]).
Qed.

Lemma noproxy_noexcept (m : M unit) (w : World) :
  creates_no_proxy m ->
  exists events,
    trace (noexcept m w) = trace w ++ events /\ no_createProxy events = true.
Proof.
  intros Hm. unfold noexcept. destruct (Hm w) as (events & Ht & Hq).
  destruct (m w) as [[[]| |what] w1]; cbn in *; [ eauto | | ];
    exists (events ++ [EvTerminate]); rewrite Ht, app_assoc;
    (split; [ reflexivity | apply no_createProxy_app; [ exact Hq | reflexivity ] ]).
Qed.

Lemma deliverSuccess_factory (w : World) (arbitrator : nat)
    (discoverEntry : DiscoveryEntryWithMetaInfo) :
  exists events,
    trace (callback (deliverSuccess arbitrator discoverEntry) w) = trace w ++ events
    /\ factory_only_on_success (ArbitrationSucceeds arbitrator discoverEntry) events.
Proof.
  assert (exists events : list Event,
             trace w = trace w ++ events
             /\ factory_only_on_success (ArbitrationSucceeds arbitrator discoverEntry)
                  events) as Hidle.
  { exists []. rewrite app_nil_r. split; [ reflexivity | left; reflexivity ]. }
  destruct (arbitratorHeap w !! arbitrator) as [a|] eqn:Ha.
  2: { unfold callback, deliverSuccess, bind, gets. cbn. rewrite Ha. exact Hidle. }
  destruct (arb_state a) eqn:Hstate;
    try (unfold callback, deliverSuccess, bind, gets; cbn; rewrite Ha, Hstate;
         exact Hidle).
  destruct (arb_onSuccess a) as [captures|] eqn:Hcb.
  2: { unfold callback, deliverSuccess, bind, gets. cbn. rewrite Ha, Hstate, Hcb.
       exact Hidle. }
  unfold callback.
  rewrite (deliverSuccess_running w arbitrator a captures discoverEntry Ha Hstate Hcb).
  destruct (builderAlive w) eqn:Halive;
    [ destruct (runtime w) as [rt|] eqn:Hrt;
      [ destruct (string_empty (getParticipantId discoverEntry)) eqn:Hpid | ] | ].
  - (* empty participant id *)
    unfold arbitrationSucceeds, call_onError, emit, modify, throw, bind, gets.
    repeat (cbn; first [ rewrite Halive | rewrite Hrt | rewrite Hpid ]). cbn.
    destruct (captured_onError captures); cbn;
      eexists; (split; [ rewrite <- ?app_assoc; reflexivity | left; reflexivity ]).
  - (* the proxy is created *)
    erewrite arbitrationSucceeds_live; [ | exact Halive | exact Hrt | exact Hpid ].
    cbn. eexists. split; [ rewrite <- app_assoc; reflexivity | ].
    right. exists arbitrator, discoverEntry. do 4 eexists.
    split; [ reflexivity | ]. split; [ exact Hpid | ].
    split; reflexivity.
  - (* the runtime is gone *)
    unfold arbitrationSucceeds, call_onError, emit, modify, throw, bind, gets.
    repeat (cbn; first [ rewrite Halive | rewrite Hrt ]). cbn.
    destruct (captured_onError captures); cbn;
      eexists; (split; [ rewrite <- ?app_assoc; reflexivity | left; reflexivity ]).
  - (* the builder is gone *)
    unfold arbitrationSucceeds, call_onError, emit, modify, throw, bind, gets.
    repeat (cbn; first [ rewrite Halive ]). cbn.
    destruct (captured_onError captures); cbn;
      eexists; (split; [ rewrite <- ?app_assoc; reflexivity | left; reflexivity ]).
Qed.

Lemma step_factory (w : World) (i : Input) :
  exists events,
    trace (step w i) = trace w ++ events /\ factory_only_on_success i events.
Proof.
  assert (exists events : list Event,
             trace w = trace w ++ events /\ factory_only_on_success i events) as Hidle.
  { exists []. rewrite app_nil_r. split; [ reflexivity | left; reflexivity ]. }
  assert (forall w',
             (exists events, trace w' = trace w ++ events
                             /\ no_createProxy events = true) ->
             exists events, trace w' = trace w ++ events
                            /\ factory_only_on_success i events) as Hnone.
  { intros w' (events & Ht & Hq). exists events. split; [ exact Ht | left; exact Hq ]. }
  unfold step. destruct (terminated w); [ exact Hidle | ].
  destruct i as [ | onSuccess onError | q | | | arbitrator discoverEntry
                | arbitrator exception | hop | hop exception ].
  - destruct (builderAlive w); [ | exact Hidle ].
    apply Hnone, noproxy_callback, noproxy_stop.
  - destruct (builderAlive w); [ | exact Hidle ].
    apply Hnone, noproxy_noexcept, noproxy_buildAsync_body.
  - destruct (builderAlive w); [ | exact Hidle ].
    apply Hnone, noproxy_noexcept, noproxy_modify_builder.
  - exact Hidle.
  - exact Hidle.
  - apply deliverSuccess_factory.
  - apply Hnone, noproxy_callback, noproxy_deliverFailure.
  - apply Hnone, noproxy_callback, noproxy_reportNextHopAdded.
  - apply Hnone, noproxy_callback, noproxy_reportNextHopFailed.
Qed.

Lemma create_only_after_success_clean (events : list Event) :
  no_createProxy events = true ->
  forall reported, create_only_after_success reported events = true.
Proof.
  induction events as [|e events IH]; cbn; intros Hq reported; [ reflexivity | ].
  apply andb_true_iff in Hq. destruct Hq as [He Hq].
  rewrite He, (IH Hq). reflexivity.
Qed.

Lemma create_only_after_success_app (tr events : list Event) (i : Input) :
  forall reported,
    create_only_after_success reported tr = true ->
    factory_only_on_success i events ->
    create_only_after_success reported (tr ++ events) = true.
Proof.
  induction tr as [|e tr IH]; cbn; intros reported Htr Hev.
  - destruct Hev as [Hq | (a & d & rt & dom & q & rest & _ & _ & -> & Hrest)].
    + apply create_only_after_success_clean. exact Hq.
    + cbn. apply create_only_after_success_clean. exact Hrest.
  - apply andb_true_iff in Htr. destruct Htr as [He Htr].
    rewrite He. cbn. apply IH; assumption.
Qed.

(** X30. The proxy factory is reached in one way only: an arbitrator
    reports an entry with a participant id while builder and runtime are
    alive. Whatever the inputs, each step that creates a proxy is such a
    report, and in the trace of every run each proxy creation comes
    directly after an arbitrator's success report. *)
Theorem factory_reached_only_on_arbitration_success (inputs : list Input) (w : World) :
  (forall i,
      existsb is_createProxy (added w (step w i)) = true ->
      exists arbitrator discoverEntry,
        i = ArbitrationSucceeds arbitrator discoverEntry
        /\ string_empty (getParticipantId discoverEntry) = false)
  /\ (create_only_after_success false (trace w) = true ->
      create_only_after_success false (trace (run w inputs)) = true).
Proof.
  split.
  - intros i Hcreated.
    destruct (step_factory w i) as (events & Ht & Hev).
    unfold added in Hcreated. rewrite Ht, drop_app_length in Hcreated.
    destruct Hev as [Hq | (a & d & rt & dom & q & rest & -> & Hpid & _ & _)];
      [ | eauto ].
    exfalso. unfold no_createProxy in Hq.
    apply existsb_exists in Hcreated. destruct Hcreated as (e & He & Hc).
    rewrite forallb_forall in Hq. specialize (Hq e He).
    rewrite Hc in Hq. discriminate.
  - revert w. induction inputs as [|i inputs IH]; intros w Hw; [ exact Hw | ].
    cbn. apply IH.
    destruct (step_factory w i) as (events & -> & Hev).
    eapply create_only_after_success_app; eassumption.
Qed.

Lemma factory_reached_only_on_arbitration_success_witness :
  create_only_after_success false
    (trace (run sampleWorld
              [CallBuildAsync (Some 0) (Some 1); CallBuildAsync (Some 2) (Some 3);
               ArbitrationSucceeds 1 providerEntry; CallStop;
               ArbitrationSucceeds 0 providerEntry; NextHopAdded 0])) = true.
Proof.
  apply (proj2 (factory_reached_only_on_arbitration_success
           [CallBuildAsync (Some 0) (Some 1); CallBuildAsync (Some 2) (Some 3);
            ArbitrationSucceeds 1 providerEntry; CallStop;
            ArbitrationSucceeds 0 providerEntry; NextHopAdded 0] sampleWorld)).
  reflexivity.
Defined.

End FactoryCalls.
